(** * SOC dashboard server: alert store, queries, aggregates, broadcast

    A shallow embedding of the server part of the repository (the Express
    handlers, the demo data generators and the Socket.IO wiring that the
    source keeps in one file), with the SQL statements read through the
    usual relational semantics of MySQL:

    - the [alerts] table is a list of rows in insertion order together
      with the AUTO_INCREMENT counter;
    - TIMESTAMP values are integers (seconds), [NOW()] is an argument;
    - text comparison ([=], [LIKE], [GROUP BY], [MAX] on text) folds the
      case of ASCII letters, as the default collations of MySQL do;
    - [ORDER BY] leaves the order among rows with equal keys to the
      engine, so the implementation of the sort is an argument of the
      handlers, constrained by [sql_order_by];
    - [db.execute] rejecting a statement is the handler's [catch] branch,
      that is, the 500 answer. *)

From stdpp Require Import gmap strings.
From Stdlib Require Import ZArith List Bool Ascii String Permutation Sorted Lia.
From Stdlib Require DecimalString DecimalPos.

Import ListNotations.
Local Open Scope string_scope.
Local Open Scope list_scope.
Local Open Scope Z_scope.

(** ** Text as the database compares it *)

Module Collation.

(** Folding of the letters A-Z onto a-z; every other character is kept. *)
Definition fold_case (c : ascii) : ascii :=
  let n := nat_of_ascii c in
  if (Nat.leb 65 n && Nat.leb n 90)%bool then ascii_of_nat (n + 32) else c.

Fixpoint key (s : string) : string :=
  match s with
  | EmptyString => EmptyString
  | String c s' => String (fold_case c) (key s')
  end.

Definition char_eqb (a b : ascii) : bool :=
  Ascii.eqb (fold_case a) (fold_case b).

(** [a = b] on text columns. *)
Definition text_eqb (a b : string) : bool := String.eqb (key a) (key b).

(** The order [MAX] and [ORDER BY] use on text. *)
Definition text_leb (a b : string) : bool := String.leb (key a) (key b).

(** [s LIKE p]: [%] matches any run of characters, [_] exactly one, and
    a backslash makes the next pattern character literal (a backslash
    that ends the pattern stands for itself). *)
Fixpoint like (p s : string) {struct p} : bool :=
  match p with
  | EmptyString =>
      match s with EmptyString => true | String _ _ => false end
  | String "%" p' =>
      (fix any (t : string) : bool :=
         like p' t ||
         match t with
         | EmptyString => false
         | String _ t' => any t'
         end) s
  | String "_" p' =>
      match s with EmptyString => false | String _ s' => like p' s' end
  | String "\" (String c p') =>
      match s with
      | EmptyString => false
      | String d s' => char_eqb c d && like p' s'
      end
  | String c p' =>
      match s with
      | EmptyString => false
      | String d s' => char_eqb c d && like p' s'
      end
  end.

(** A nullable column under [LIKE]: NULL never matches. *)
Definition like_opt (p : string) (col : option string) : bool :=
  match col with
  | Some s => like p s
  | None => false
  end.

End Collation.

(** ** The [alerts] table *)

Inductive Severity := Critical | High | Medium | Low | Informational.

Inductive Status := New | Assigned | InProgress | Resolved | FalsePositive.

Definition severity_name (s : Severity) : string :=
  match s with
  | Critical => "Critical"
  | High => "High"
  | Medium => "Medium"
  | Low => "Low"
  | Informational => "Informational"
  end.

Definition status_name (s : Status) : string :=
  match s with
  | New => "New"
  | Assigned => "Assigned"
  | InProgress => "In Progress"
  | Resolved => "Resolved"
  | FalsePositive => "False Positive"
  end.

(** One row, column by column as [createTables] declares it.  DECIMAL
    coordinates are integers in units of 10^-8 degree. *)
Record Alert := mkAlert {
  id : Z;
  alert_type : string;
  severity : Severity;
  source_ip : option string;
  destination_ip : option string;
  source_port : option Z;
  destination_port : option Z;
  protocol : option string;
  description : option string;
  raw_event : option string;
  status : Status;
  created_at : Z;
  updated_at : Z;
  resolved_at : option Z;
  assigned_to : option Z;
  country_code : option string;
  city : option string;
  latitude : option Z;
  longitude : option Z
}.

Record Store := mkStore {
  rows : list Alert;
  next_id : Z
}.

Definition empty_store : Store := {| rows := []; next_id := 1 |}.

Definition HOUR : Z := 3600.
Definition DAY : Z := 24 * HOUR.

(** [DATE_SUB(NOW(), INTERVAL n HOUR)] *)
Definition date_sub_hours (now n : Z) : Z := now - n * HOUR.

(** ** GET /api/dashboard/overview: the threat level *)

Inductive ThreatLevel := Green | Yellow | Red.

(** [severity IN ('Critical', 'High') AND created_at >= DATE_SUB(NOW(), INTERVAL 1 HOUR)] *)
Definition critical_recent (now : Z) (a : Alert) : bool :=
  (match severity a with Critical | High => true | _ => false end)
  && (date_sub_hours now 1 <=? created_at a).

(** [SELECT COUNT( * ) ... ] of the rows above. *)
Definition criticalAlerts (now : Z) (st : Store) : Z :=
  Z.of_nat (List.length (List.filter (critical_recent now) (rows st))).

Definition threatLevel_of_count (count : Z) : ThreatLevel :=
  if 10 <? count then Red
  else if 5 <? count then Yellow
  else Green.

Definition threatLevel (now : Z) (st : Store) : ThreatLevel :=
  threatLevel_of_count (criticalAlerts now st).

(** ** INSERT INTO alerts *)

(** The columns an INSERT statement of the source can name; the table
    fills in [id] (AUTO_INCREMENT), [updated_at] (CURRENT_TIMESTAMP) and,
    when the statement leaves them out, [status] ('New'), [created_at]
    (CURRENT_TIMESTAMP) and NULL for the rest.  No statement of the
    source names [resolved_at] or [assigned_to]. *)
Record Insert := mkInsert {
  i_alert_type : string;
  i_severity : Severity;
  i_source_ip : option string;
  i_destination_ip : option string;
  i_source_port : option Z;
  i_destination_port : option Z;
  i_protocol : option string;
  i_description : option string;
  i_raw_event : option string;
  i_status : option Status;
  i_created_at : option Z;
  i_country_code : option string;
  i_city : option string;
  i_latitude : option Z;
  i_longitude : option Z
}.

Definition row_of_insert (now : Z) (new_id : Z) (i : Insert) : Alert :=
  {| id := new_id;
     alert_type := i_alert_type i;
     severity := i_severity i;
     source_ip := i_source_ip i;
     destination_ip := i_destination_ip i;
     source_port := i_source_port i;
     destination_port := i_destination_port i;
     protocol := i_protocol i;
     description := i_description i;
     raw_event := i_raw_event i;
     status := match i_status i with Some s => s | None => New end;
     created_at := match i_created_at i with Some t => t | None => now end;
     updated_at := now;
     resolved_at := None;
     assigned_to := None;
     country_code := i_country_code i;
     city := i_city i;
     latitude := i_latitude i;
     longitude := i_longitude i |}.

(** [db.execute('INSERT INTO alerts ...')]: the new store and [insertId]. *)
Definition insert_alert (now : Z) (i : Insert) (st : Store) : Store * Z :=
  ({| rows := rows st ++ [row_of_insert now (next_id st) i];
      next_id := next_id st + 1 |},
   next_id st).

(** [SELECT * FROM alerts WHERE id = ?] *)
Definition select_by_id (k : Z) (st : Store) : list Alert :=
  List.filter (fun a => id a =? k) (rows st).

(** ** The demo data generators *)

Record Location := mkLocation {
  country : string;
  loc_city : string;
  lat : Z;
  lng : Z
}.

(** [Math.floor(Math.random() * n)] for a draw [r]: any of [0 .. n-1]. *)
Definition random_below (r n : Z) : Z := r mod n.

Definition pick {A : Type} (l : list A) (d : A) (r : Z) : A :=
  nth (Z.to_nat (random_below r (Z.of_nat (List.length l)))) l d.

(** An integer inside a template literal, written in decimal as
    JavaScript writes the integers below 10^21 in absolute value. *)
Definition string_of_Z (n : Z) : string :=
  DecimalString.NilZero.string_of_int (Z.to_int n).

Definition dotted (a b c d : string) : string :=
  a +:+ "." +:+ b +:+ "." +:+ c +:+ "." +:+ d.

Definition random_octet (r : Z) : string := string_of_Z (random_below r 255).

Module Sample.

Definition alertTypes : list string :=
  [ "Brute Force Attack"; "SQL Injection"; "Cross-Site Scripting"; "Port Scan";
    "Malware Detection"; "Suspicious Network Traffic"; "Failed Login";
    "Data Exfiltration"; "Privilege Escalation"; "DNS Tunneling";
    "Command Injection"; "File Integrity Violation" ].

Definition severities : list Severity :=
  [Critical; High; Medium; Low; Informational].

Definition statuses : list Status :=
  [New; Assigned; InProgress; Resolved; FalsePositive].

Definition locations : list Location :=
  [ mkLocation "CN" "Beijing" 3990420000 11640740000;
    mkLocation "RU" "Moscow" 5575580000 3761760000;
    mkLocation "US" "New York" 4071280000 (-7400600000);
    mkLocation "BR" "São Paulo" (-2355050000) (-4663330000);
    mkLocation "IN" "Mumbai" 1907600000 7287770000;
    mkLocation "DE" "Berlin" 5252000000 1340500000;
    mkLocation "FR" "Paris" 4885660000 235220000;
    mkLocation "KR" "Seoul" 3756650000 12697800000 ].

Definition protocols : list string := ["TCP"; "UDP"; "ICMP"].

(** What one turn of the loop reads from the outside: the clock and
    its calls of [Math.random], in the order of the source. *)
Record Draw := mkDraw {
  clock : Z;
  r_alertType : Z;
  r_severity : Z;
  r_status : Z;
  r_location : Z;
  r_source : Z * Z * Z * Z;
  r_dest : Z * Z;
  r_age : Z;
  r_source_port : Z;
  r_destination_port : Z;
  r_protocol : Z;
  rawEvent : string
}.

(** The loop body of [generateSampleSecurityData]: one INSERT.
    [r_age] is [Math.random() * 30 days] in seconds and [rawEvent] the
    text [JSON.stringify(rawEvent)] (an opaque payload here). *)
Definition insert_of (d : Draw) : Insert :=
  let alertType := pick alertTypes "" (r_alertType d) in
  let location := pick locations (mkLocation "" "" 0 0) (r_location d) in
  let '(s1, s2, s3, s4) := r_source d in
  let '(d3, d4) := r_dest d in
  let sourceIP :=
    dotted (random_octet s1) (random_octet s2) (random_octet s3) (random_octet s4) in
  let destIP := dotted "192" "168" (random_octet d3) (random_octet d4) in
  {| i_alert_type := alertType;
     i_severity := pick severities Critical (r_severity d);
     i_source_ip := Some sourceIP;
     i_destination_ip := Some destIP;
     i_source_port := Some (random_below (r_source_port d) 65535);
     i_destination_port := Some (random_below (r_destination_port d) 65535);
     i_protocol := Some (pick protocols "" (r_protocol d));
     i_description := Some (alertType +:+ " detected from " +:+ sourceIP);
     i_raw_event := Some (rawEvent d);
     i_status := Some (pick statuses New (r_status d));
     i_created_at := Some (clock d - r_age d mod (30 * DAY));
     i_country_code := Some (country location);
     i_city := Some (loc_city location);
     i_latitude := Some (lat location);
     i_longitude := Some (lng location) |}.

(** [for (let i = 0; i < n; i++) { ... }], the turns [i0 .. i0+n-1]. *)
Fixpoint loop (n : nat) (i0 : nat) (draws : nat -> Draw) (st : Store) : Store :=
  match n with
  | O => st
  | S n' =>
      let d := draws i0 in
      loop n' (S i0) draws (fst (insert_alert (clock d) (insert_of d) st))
  end.

(** The alert part of [generateSampleSecurityData]. *)
Definition generateSampleSecurityData (draws : nat -> Draw) (st : Store) : Store :=
  if Z.of_nat (List.length (rows st)) <? 100 then loop 150 0 draws st else st.

End Sample.

(** ** What SQL promises about ORDER BY and GROUP BY *)

(** [ORDER BY k DESC]: the rows come back rearranged so that keys never
    increase; rows with equal keys come in an order of the engine's
    choosing. *)
Definition desc_by {A : Type} (k : A -> Z) (a b : A) : Prop := k b <= k a.

Definition sql_order_by {A : Type} (k : A -> Z) (sort : list A -> list A) : Prop :=
  forall l, Permutation l (sort l) /\ StronglySorted (desc_by k) (sort l).

(** Two engines that meet the promise: insertion sorts that put a row
    after, respectively before, the rows of equal key already placed. *)
Fixpoint insert_after {A : Type} (k : A -> Z) (a : A) (l : list A) : list A :=
  match l with
  | [] => [a]
  | b :: l' => if k b <? k a then a :: l else b :: insert_after k a l'
  end.

Fixpoint insert_before {A : Type} (k : A -> Z) (a : A) (l : list A) : list A :=
  match l with
  | [] => [a]
  | b :: l' => if k b <=? k a then a :: l else b :: insert_before k a l'
  end.

(** Rows of equal key stay in scan order. *)
Definition sort_scan_order {A : Type} (k : A -> Z) (l : list A) : list A :=
  fold_left (fun acc a => insert_after k a acc) l [].

(** Rows of equal key come in reverse scan order. *)
Definition sort_reverse_scan {A : Type} (k : A -> Z) (l : list A) : list A :=
  fold_left (fun acc a => insert_before k a acc) l [].

(** [GROUP BY]: rows with the same key form one group.  Groups are kept
    in the order their first row is scanned, and a group keeps its rows
    in scan order; its first row gives the key of the group. *)
Definition head_same {A : Type} (same : A -> A -> bool) (g : list A) (a : A) : bool :=
  match g with
  | r :: _ => same r a
  | [] => false
  end.

Fixpoint add_to_group {A : Type} (same : A -> A -> bool) (a : A)
    (groups : list (list A)) : list (list A) :=
  match groups with
  | [] => [[a]]
  | g :: groups' =>
      if head_same same g a then (g ++ [a]) :: groups'
      else g :: add_to_group same a groups'
  end.

Definition group_by {A : Type} (same : A -> A -> bool) (l : list A) : list (list A) :=
  fold_left (fun groups a => add_to_group same a groups) l [].

(** Equality of nullable text as GROUP BY sees it: NULLs fall together. *)
Definition same_text (a b : option string) : bool :=
  match a, b with
  | Some x, Some y => Collation.text_eqb x y
  | None, None => true
  | _, _ => false
  end.

Definition same_num (a b : option Z) : bool :=
  match a, b with
  | Some x, Some y => x =? y
  | None, None => true
  | _, _ => false
  end.

(** ** GET /api/dashboard/overview, continued *)

(** [SELECT COUNT( * ) FROM alerts WHERE created_at >= DATE_SUB(NOW(), INTERVAL n HOUR)] *)
Definition alerts_since (now hours : Z) (st : Store) : list Alert :=
  List.filter (fun a => date_sub_hours now hours <=? created_at a) (rows st).

Definition count_since (now hours : Z) (st : Store) : Z :=
  Z.of_nat (List.length (alerts_since now hours st)).

Definition severity_eqb (a b : Severity) : bool :=
  match a, b with
  | Critical, Critical | High, High | Medium, Medium
  | Low, Low | Informational, Informational => true
  | _, _ => false
  end.

(** [SELECT severity, COUNT( * ) ... INTERVAL 24 HOUR GROUP BY severity] *)
Definition severityBreakdown (now : Z) (st : Store) : list (Severity * Z) :=
  map (fun g => (match g with a :: _ => severity a | [] => Critical end,
                 Z.of_nat (List.length g)))
      (group_by (fun a b => severity_eqb (severity a) (severity b))
                (alerts_since now 24 st)).

Definition same_type (a b : Alert) : bool :=
  Collation.text_eqb (alert_type a) (alert_type b).

Definition type_of_group (g : list Alert) : string :=
  match g with a :: _ => alert_type a | [] => "" end.

(** [SELECT alert_type, COUNT( * ) as count ... INTERVAL 7 DAY
     GROUP BY alert_type], before the ordering. *)
Definition alert_type_counts (now : Z) (st : Store) : list (string * Z) :=
  map (fun g => (type_of_group g, Z.of_nat (List.length g)))
      (group_by same_type (alerts_since now (7 * 24) st)).

(** [... ORDER BY count DESC LIMIT 5] *)
Definition topAlertTypes (order_by : list (string * Z) -> list (string * Z))
    (now : Z) (st : Store) : list (string * Z) :=
  firstn 5 (order_by (alert_type_counts now st)).

Record Metrics := mkMetrics {
  alerts24h : Z;
  alerts7d : Z;
  alerts30d : Z;
  m_threatLevel : ThreatLevel
}.

(** The answer of the handler, but for [incidentStatus], which reads the
    incidents table. *)
Record Overview := mkOverview {
  metrics : Metrics;
  o_severityBreakdown : list (Severity * Z);
  o_topAlertTypes : list (string * Z)
}.

Definition dashboard_overview (order_by : list (string * Z) -> list (string * Z))
    (now : Z) (st : Store) : Overview :=
  {| metrics :=
       {| alerts24h := count_since now 24 st;
          alerts7d := count_since now (7 * 24) st;
          alerts30d := count_since now (30 * 24) st;
          m_threatLevel := threatLevel now st |};
     o_severityBreakdown := severityBreakdown now st;
     o_topAlertTypes := topAlertTypes order_by now st |}.

(** ** JavaScript values the handlers compute with *)

(** [parseInt(s)] on ASCII text: leading white space, a sign, an
    optional [0x] prefix, then the longest run of digits; [None] is NaN. *)
Module Js.

Definition is_space (c : ascii) : bool :=
  let n := nat_of_ascii c in
  (Nat.leb 9 n && Nat.leb n 13)%bool || Nat.eqb n 32.

(** The other white space of [StrWhiteSpaceChar], the texts being
    sequences of bytes in UTF-8: U+00A0 on two bytes; on three, U+1680,
    U+2000 to U+200A, U+2028, U+2029, U+202F, U+205F, U+3000 and U+FEFF. *)
Definition space2 (c d : ascii) : bool :=
  Nat.eqb (nat_of_ascii c) 194 && Nat.eqb (nat_of_ascii d) 160.

Definition lead3 (c : ascii) : bool :=
  let n := nat_of_ascii c in
  Nat.eqb n 225 || Nat.eqb n 226 || Nat.eqb n 227 || Nat.eqb n 239.

Definition space3 (c d e : ascii) : bool :=
  let '(n, m, k) := (nat_of_ascii c, nat_of_ascii d, nat_of_ascii e) in
  (Nat.eqb n 225 && Nat.eqb m 154 && Nat.eqb k 128)
  || (Nat.eqb n 226 && Nat.eqb m 128
      && ((Nat.leb 128 k && Nat.leb k 138) || Nat.eqb k 168 || Nat.eqb k 169
          || Nat.eqb k 175))
  || (Nat.eqb n 226 && Nat.eqb m 129 && Nat.eqb k 159)
  || (Nat.eqb n 227 && Nat.eqb m 128 && Nat.eqb k 128)
  || (Nat.eqb n 239 && Nat.eqb m 187 && Nat.eqb k 191).

Fixpoint trim_start (s : string) : string :=
  match s with
  | String c s1 =>
      if is_space c then trim_start s1
      else if Nat.eqb (nat_of_ascii c) 194 then
        match s1 with
        | String d s2 => if space2 c d then trim_start s2 else s
        | EmptyString => s
        end
      else if lead3 c then
        match s1 with
        | String d (String e s3) => if space3 c d e then trim_start s3 else s
        | _ => s
        end
      else s
  | EmptyString => s
  end.

Definition digit (radix : Z) (c : ascii) : option Z :=
  let n := Z.of_nat (nat_of_ascii c) in
  let v :=
    if (48 <=? n) && (n <=? 57) then n - 48
    else if (97 <=? n) && (n <=? 122) then n - 97 + 10
    else if (65 <=? n) && (n <=? 90) then n - 65 + 10
    else radix in
  if v <? radix then Some v else None.

Fixpoint digits (radix : Z) (s : string) (acc : option Z) : option Z :=
  match s with
  | String c s' =>
      match digit radix c with
      | Some v =>
          digits radix s' (Some (match acc with Some a => a | None => 0 end * radix + v))
      | None => acc
      end
  | EmptyString => acc
  end.

(** [parseInt(s)]: [None] is NaN.  The value is the integer the digits
    write; the number JavaScript returns is the double nearest to it,
    which is that integer up to 2^53 in absolute value. *)
Definition parseInt (s : string) : option Z :=
  let s1 := trim_start s in
  let '(sign, s2) :=
    match s1 with
    | String "-" t => (-1, t)
    | String "+" t => (1, t)
    | _ => (1, s1)
    end in
  let '(radix, s3) :=
    match s2 with
    | String "0" (String "x" t) => (16, t)
    | String "0" (String "X" t) => (16, t)
    | _ => (10, s2)
    end in
  match digits radix s3 None with
  | Some n => Some (sign * n)
  | None => None
  end.

(** A destructured query parameter with a numeric default, under
    [parseInt]: the default applies only when the parameter is absent. *)
Definition parseInt_or (default : Z) (p : option string) : option Z :=
  match p with
  | Some s => parseInt s
  | None => Some default
  end.

(** [if (p)] on a query parameter: absent and empty are both falsy. *)
Definition truthy (p : option string) : bool :=
  match p with
  | Some (String _ _) => true
  | _ => false
  end.

Inductive number := Int (z : Z) | Infinity | NaN.

(** [Math.ceil(a / b)] for integers [0 <= a] and [0 <= b]. *)
Definition ceil_div (a b : Z) : number :=
  if b =? 0 then (if a =? 0 then NaN else Infinity)
  else Int ((a + b - 1) / b).

End Js.

(** ** GET /api/alerts *)

Module Req.

(** [req.query], each parameter a string when present. *)
Record t := mk {
  page : option string;
  limit : option string;
  severity : option string;
  status : option string;
  alertType : option string;
  sourceIp : option string;
  destinationIp : option string;
  timeRange : option string;
  search : option string
}.

Definition none : t := mk None None None None None None None None None.

End Req.

Definition text_of (p : option string) : string :=
  match p with Some s => s | None => "" end.

(** [`%${x}%`] *)
Definition contains_pattern (x : string) : string := "%" +:+ x +:+ "%".

(** The WHERE clause both statements are built with: one conjunct for
    every truthy parameter, [1=1] for the others.  [hours] is the bound
    value [parseInt(timeRange)]. *)
Definition where_clause (now : Z) (q : Req.t) (hours : Z) (a : Alert) : bool :=
  (if Js.truthy (Req.severity q)
   then Collation.text_eqb (severity_name (severity a)) (text_of (Req.severity q))
   else true)
  && (if Js.truthy (Req.status q)
      then Collation.text_eqb (status_name (status a)) (text_of (Req.status q))
      else true)
  && (if Js.truthy (Req.alertType q)
      then Collation.text_eqb (alert_type a) (text_of (Req.alertType q))
      else true)
  && (if Js.truthy (Req.sourceIp q)
      then Collation.like_opt (contains_pattern (text_of (Req.sourceIp q))) (source_ip a)
      else true)
  && (if Js.truthy (Req.destinationIp q)
      then Collation.like_opt (contains_pattern (text_of (Req.destinationIp q)))
             (destination_ip a)
      else true)
  && (if Js.truthy (Req.timeRange q)
      then date_sub_hours now hours <=? created_at a
      else true)
  && (if Js.truthy (Req.search q)
      then
        let p := contains_pattern (text_of (Req.search q)) in
        Collation.like p (alert_type a)
        || Collation.like_opt p (description a)
        || Collation.like_opt p (source_ip a)
      else true).

Inductive Response (A : Type) :=
| Ok200 (body : A)
| Err500.
Arguments Ok200 {A} body.
Arguments Err500 {A}.

Record Pagination := mkPagination {
  p_page : Z;
  p_limit : Z;
  total : Z;
  pages : Js.number
}.

Record AlertsBody := mkAlertsBody {
  alerts : list Alert;
  pagination : Pagination
}.

(** The rows that satisfy the WHERE clause, in scan order. *)
Definition matching (now : Z) (q : Req.t) (hours : Z) (st : Store) : list Alert :=
  List.filter (where_clause now q hours) (rows st).

(** [LIMIT lim OFFSET off] *)
Definition limit_offset {A : Type} (lim off : Z) (l : list A) : list A :=
  firstn (Z.to_nat lim) (skipn (Z.to_nat off) l).

(** The handler.  A parameter that [parseInt] turns into NaN, or a
    negative LIMIT or OFFSET, makes [db.execute] reject the statement,
    and the [catch] branch answers 500. *)
Definition api_alerts (order_by : list Alert -> list Alert)
    (now : Z) (q : Req.t) (st : Store) : Response AlertsBody :=
  match (if Js.truthy (Req.timeRange q)
         then Js.parseInt (text_of (Req.timeRange q)) else Some 0) with
  | None => Err500
  | Some hours =>
      let found := matching now q hours st in
      let total := Z.of_nat (List.length found) in
      match Js.parseInt_or 50 (Req.limit q), Js.parseInt_or 1 (Req.page q) with
      | Some lim, Some pg =>
          let off := (pg - 1) * lim in
          if (0 <=? lim) && (0 <=? off) then
            Ok200 {| alerts := limit_offset lim off (order_by found);
                     pagination :=
                       {| p_page := pg;
                          p_limit := lim;
                          total := total;
                          pages := Js.ceil_div total lim |} |}
          else Err500
      | _, _ => Err500
      end
  end.

(** ** GET /api/threats/geographic *)

(** [MAX(severity)]: on an ENUM column MySQL takes the maximum of the
    values as text, not of their positions in the ENUM. *)
Definition text_max (a b : Severity) : Severity :=
  if Collation.text_leb (severity_name a) (severity_name b) then b else a.

Definition max_of_severities (l : list Severity) : option Severity :=
  match l with
  | [] => None
  | s :: l' => Some (fold_left text_max l' s)
  end.

Definition max_of_times (l : list Z) : option Z :=
  match l with
  | [] => None
  | t :: l' => Some (fold_left Z.max l' t)
  end.

Record GeoCluster := mkGeoCluster {
  g_country_code : option string;
  g_city : option string;
  g_latitude : option Z;
  g_longitude : option Z;
  alert_count : Z;
  max_severity : option Severity;
  latest_alert : option Z
}.

(** [latitude IS NOT NULL AND longitude IS NOT NULL
     AND created_at >= DATE_SUB(NOW(), INTERVAL 24 HOUR)] *)
Definition located_recent (now : Z) (a : Alert) : bool :=
  (match latitude a with Some _ => true | None => false end)
  && (match longitude a with Some _ => true | None => false end)
  && (date_sub_hours now 24 <=? created_at a).

(** [GROUP BY country_code, city, latitude, longitude] *)
Definition same_place (a b : Alert) : bool :=
  same_text (country_code a) (country_code b)
  && same_text (city a) (city b)
  && same_num (latitude a) (latitude b)
  && same_num (longitude a) (longitude b).

Definition geo_groups (now : Z) (st : Store) : list (list Alert) :=
  group_by same_place (List.filter (located_recent now) (rows st)).

Definition cluster_of (g : list Alert) : GeoCluster :=
  {| g_country_code := match g with a :: _ => country_code a | [] => None end;
     g_city := match g with a :: _ => city a | [] => None end;
     g_latitude := match g with a :: _ => latitude a | [] => None end;
     g_longitude := match g with a :: _ => longitude a | [] => None end;
     alert_count := Z.of_nat (List.length g);
     max_severity := max_of_severities (map severity g);
     latest_alert := max_of_times (map created_at g) |}.

Definition geographic_threats (now : Z) (st : Store) : list GeoCluster :=
  map cluster_of (geo_groups now st).

(** The rank the specification gives the severities: Critical > High >
    Medium > Low > Informational. *)
Definition severity_rank (s : Severity) : Z :=
  match s with
  | Critical => 4
  | High => 3
  | Medium => 2
  | Low => 1
  | Informational => 0
  end.

(** ** Socket.IO: connections, rooms and [io.emit] *)

(** A connected socket: the rooms it is in and, in order, the packets
    the server has handed to it. *)
Record Session := mkSession {
  rooms : gset string;
  inbox : list (string * option Alert)
}.

Inductive SocketEvent :=
| Connection (sid : string)
| JoinRole (sid : string) (role : string)
| Disconnect (sid : string)
| Emit (event : string) (payload : option Alert).

(** [io.on('connection', ...)]: a socket starts in the room of its id. *)
Definition on_connection (sid : string) (sockets : gmap string Session)
    : gmap string Session :=
  <[sid := {| rooms := {[sid]}; inbox := [] |}]> sockets.

(** [socket.on('join-role', (role) => socket.join(role))] *)
Definition join_role (sid role : string) (sockets : gmap string Session)
    : gmap string Session :=
  alter (fun s => {| rooms := {[role]} ∪ rooms s; inbox := inbox s |}) sid sockets.

Definition on_disconnect (sid : string) (sockets : gmap string Session)
    : gmap string Session :=
  delete sid sockets.

(** [io.emit(event, payload)]: one packet to every connected socket. *)
Definition io_emit (event : string) (payload : option Alert)
    (sockets : gmap string Session) : gmap string Session :=
  (fun s => {| rooms := rooms s; inbox := inbox s ++ [(event, payload)] |}) <$> sockets.

Definition handle (ev : SocketEvent) (sockets : gmap string Session)
    : gmap string Session :=
  match ev with
  | Connection sid => on_connection sid sockets
  | JoinRole sid role => join_role sid role sockets
  | Disconnect sid => on_disconnect sid sockets
  | Emit event payload => io_emit event payload sockets
  end.

Definition run (evs : list SocketEvent) (sockets : gmap string Session)
    : gmap string Session :=
  fold_left (fun s ev => handle ev s) evs sockets.

(** The packets a run of events emits, in order. *)
Definition emitted (evs : list SocketEvent) : list (string * option Alert) :=
  flat_map (fun ev => match ev with
                      | Emit event payload => [(event, payload)]
                      | _ => []
                      end) evs.

(** The events of a run that open or close the socket [sid]. *)
Definition touches (sid : string) (ev : SocketEvent) : bool :=
  match ev with
  | Connection s | Disconnect s => String.eqb s sid
  | _ => false
  end.

(** ** simulateRealTimeAlerts *)

Record Server := mkServer {
  db : Store;
  sockets : gmap string Session
}.

Module Live.

Definition alertTypes : list string :=
  ["Port Scan"; "Failed Login"; "Suspicious Network Traffic"; "Malware Detection"].

Definition severities : list Severity :=
  [Critical; High; Medium; Low; Informational].

Definition locations : list Location :=
  [ mkLocation "CN" "Beijing" 3990420000 11640740000;
    mkLocation "RU" "Moscow" 5575580000 3761760000;
    mkLocation "US" "New York" 4071280000 (-7400600000) ].

Record Draw := mkDraw {
  clock : Z;
  fires : bool;
  r_alertType : Z;
  r_severity : Z;
  r_location : Z;
  r_source : Z * Z * Z * Z
}.

Definition insert_of (d : Draw) : Insert :=
  let alertType := pick alertTypes "" (r_alertType d) in
  let location := pick locations (mkLocation "" "" 0 0) (r_location d) in
  let '(s1, s2, s3, s4) := r_source d in
  let sourceIP :=
    dotted (random_octet s1) (random_octet s2) (random_octet s3) (random_octet s4) in
  {| i_alert_type := alertType;
     i_severity := pick severities Critical (r_severity d);
     i_source_ip := Some sourceIP;
     i_destination_ip := Some "192.168.1.100";
     i_source_port := None;
     i_destination_port := None;
     i_protocol := None;
     i_description := Some ("Real-time " +:+ alertType +:+ " detected from " +:+ sourceIP);
     i_raw_event := None;
     i_status := Some New;
     i_created_at := None;
     i_country_code := Some (country location);
     i_city := Some (loc_city location);
     i_latitude := Some (lat location);
     i_longitude := Some (lng location) |}.

(** One firing of the interval.  [fires] is [Math.random() < 0.3]. *)
Definition tick (d : Draw) (sv : Server) : Server :=
  if fires d then
    let '(db', insertId) := insert_alert (clock d) (insert_of d) (db sv) in
    let newAlert := select_by_id insertId db' in
    {| db := db';
       sockets := io_emit "new-alert" (hd_error newAlert) (sockets sv) |}
  else sv.

End Live.

(** ** The states the server can be in *)

(** The store changes by the generator at start-up (again at every
    restart, as the tables persist) and by the firings of the interval;
    the sockets by the events of their clients. *)
Inductive step : Server -> Server -> Prop :=
| step_generate draws sv :
    step sv {| db := Sample.generateSampleSecurityData draws (db sv);
               sockets := sockets sv |}
| step_tick d sv :
    step sv (Live.tick d sv)
| step_connection sid sv :
    step sv {| db := db sv; sockets := on_connection sid (sockets sv) |}
| step_join sid role sv :
    step sv {| db := db sv; sockets := join_role sid role (sockets sv) |}
| step_disconnect sid sv :
    step sv {| db := db sv; sockets := on_disconnect sid (sockets sv) |}.

Inductive reachable : Server -> Prop :=
| reach_init : reachable {| db := empty_store; sockets := ∅ |}
| reach_step sv sv' : reachable sv -> step sv sv' -> reachable sv'.

(** ** Scenarios *)

(** An INSERT that names little more than the severity and, at will,
    the creation time. *)
Definition plain (sev : Severity) (created : option Z) : Insert :=
  {| i_alert_type := "Port Scan";
     i_severity := sev;
     i_source_ip := Some "10.0.0.7";
     i_destination_ip := Some "192.168.1.100";
     i_source_port := None;
     i_destination_port := None;
     i_protocol := None;
     i_description := None;
     i_raw_event := None;
     i_status := None;
     i_created_at := created;
     i_country_code := None;
     i_city := None;
     i_latitude := None;
     i_longitude := None |}.

Definition store_of (now : Z) (l : list Insert) : Store :=
  fold_left (fun st i => fst (insert_alert now i st)) l empty_store.

(** Ten alerts of the last hour before [now = 7200]: one Critical, stamped
    by the table at [now], and nine High created at 5000. *)
Definition ten_recent : Store :=
  store_of 7200 (plain Critical None :: repeat (plain High (Some 5000)) 9).

(** Two firings of the interval, ten seconds apart, both from Beijing: a
    Critical port scan, then a Medium failed login. *)
Definition first_tick : Live.Draw :=
  Live.mkDraw 90000 true 0 0 0 (203, 0, 113, 9).

Definition second_tick : Live.Draw :=
  Live.mkDraw 90010 true 1 2 0 (198, 51, 100, 23).

Definition after_two_ticks : Server :=
  Live.tick second_tick (Live.tick first_tick {| db := empty_store; sockets := ∅ |}).

(** A run of the generator whose every turn draws status 'Resolved' and
    the same creation time. *)
Definition resolved_draw : Sample.Draw :=
  Sample.mkDraw 2600000 3 1 3 0 (203, 0, 113, 9) (1, 20) 600 4444 443 0 "{}".

Definition after_startup : Server :=
  {| db := Sample.generateSampleSecurityData (fun _ => resolved_draw) empty_store;
     sockets := ∅ |}.

(** Two sockets, one of them in the room of a role, and a later arrival. *)
Definition two_sockets : gmap string Session :=
  join_role "s1" "SOC Analyst" (on_connection "s2" (on_connection "s1" ∅)).

Definition busy_run : list SocketEvent :=
  [ Emit "new-alert" (hd_error (rows (db after_two_ticks)));
    JoinRole "s2" "Administrator";
    Connection "s3";
    Emit "new-alert" (nth_error (rows (db after_two_ticks)) 1);
    Disconnect "s3" ].

(** Requests: the first three alerts; High alerts of the last hour; all
    alerts of the last day. *)
Definition first_three : Req.t :=
  Req.mk None (Some "3") None None None None None None None.

Definition high_last_hour : Req.t :=
  Req.mk None None (Some "High") None None None None (Some "1") None.

Definition last_day : Req.t :=
  Req.mk None None None None None None None (Some "24") None.

(** A store of [n] alerts, and a request whose limit is 1 followed by
    [n] zeros. *)
Definition many_alerts (n : nat) : Store :=
  store_of 0 (repeat (plain Low None) n).

Fixpoint zeros (n : nat) : string :=
  match n with
  | O => EmptyString
  | S n' => String "0" (zeros n')
  end.

Definition big_limit (n : nat) : Req.t :=
  Req.mk None (Some (String "1" (zeros n))) None None None None None None None.

(** A source filter with a wild card in it. *)
Definition wild_source : Req.t :=
  Req.mk None None None None None (Some "0_0") None None None.

(** One High alert of the last hour and fifty Low ones, all newer. *)
Definition high_behind_fifty : Store :=
  store_of 7200 (plain High (Some 5000) :: repeat (plain Low (Some 6000)) 50).

(** ** Orders the specification names *)



(** ** The threat level, as the specification reads it *)

(** Critical or High, and created within the hour before [now]. *)
Definition grave_last_hour (now : Z) (a : Alert) : Prop :=
  (severity a = Critical \/ severity a = High) /\ now - 3600 <= created_at a.

(** [n] is the number of the rows of a list that have the property. *)
Inductive counted {A : Type} (P : A -> Prop) : list A -> Z -> Prop :=
| counted_nil : counted P [] 0
| counted_in a l n : P a -> counted P l n -> counted P (a :: l) (n + 1)
| counted_out a l n : ~ P a -> counted P l n -> counted P (a :: l) n.

(** ** The WHERE clause, conjunct by conjunct *)

(** What the WHERE clause asks of a row: one conjunct for every
    parameter supplied, the three substring parameters under [LIKE]
    with the pattern [%x%]. *)
Definition where_holds (now : Z) (q : Req.t) (hours : Z) (a : Alert) : Prop :=
  (Js.truthy (Req.severity q) = true ->
   Collation.text_eqb (severity_name (severity a)) (text_of (Req.severity q)) = true)
  /\ (Js.truthy (Req.status q) = true ->
      Collation.text_eqb (status_name (status a)) (text_of (Req.status q)) = true)
  /\ (Js.truthy (Req.alertType q) = true ->
      Collation.text_eqb (alert_type a) (text_of (Req.alertType q)) = true)
  /\ (Js.truthy (Req.sourceIp q) = true ->
      Collation.like_opt (contains_pattern (text_of (Req.sourceIp q))) (source_ip a) = true)
  /\ (Js.truthy (Req.destinationIp q) = true ->
      Collation.like_opt (contains_pattern (text_of (Req.destinationIp q)))
        (destination_ip a) = true)
  /\ (Js.truthy (Req.timeRange q) = true -> now - hours * 3600 <= created_at a)
  /\ (Js.truthy (Req.search q) = true ->
      Collation.like (contains_pattern (text_of (Req.search q))) (alert_type a) = true
      \/ Collation.like_opt (contains_pattern (text_of (Req.search q))) (description a) = true
      \/ Collation.like_opt (contains_pattern (text_of (Req.search q))) (source_ip a) = true).

(** ** Filters, as the specification reads them *)

(** The needle has none of the characters LIKE reads as wild cards or
    as the escape. *)
Definition plain_needle (x : string) : bool :=
  forallb (fun c => negb (Ascii.eqb c "%" || Ascii.eqb c "_" || Ascii.eqb c "\"))
    (list_ascii_of_string x).

(** [s] starts with [x], letter case apart. *)
Fixpoint starts_with_ci (x s : string) : bool :=
  match x, s with
  | EmptyString, _ => true
  | String _ _, EmptyString => false
  | String c x', String d s' => Collation.char_eqb c d && starts_with_ci x' s'
  end.

(** [s] contains [x], letter case apart. *)
Fixpoint contains_ci (x s : string) : bool :=
  starts_with_ci x s
  || match s with
     | EmptyString => false
     | String _ s' => contains_ci x s'
     end.

(** A column that may be NULL contains the text. *)
Definition contains_opt (x : string) (col : option string) : Prop :=
  exists s, col = Some s /\ contains_ci x s = true.

(** The alert meets every predicate the request supplies; a parameter
    that is absent (or empty) asks nothing.  The substring predicates
    ask that the column contains the supplied text, letter case apart
    as the columns compare. *)
Definition satisfies (now : Z) (q : Req.t) (hours : Z) (a : Alert) : Prop :=
  (Js.truthy (Req.severity q) = true ->
   Collation.text_eqb (severity_name (severity a)) (text_of (Req.severity q)) = true)
  /\ (Js.truthy (Req.status q) = true ->
      Collation.text_eqb (status_name (status a)) (text_of (Req.status q)) = true)
  /\ (Js.truthy (Req.alertType q) = true ->
      Collation.text_eqb (alert_type a) (text_of (Req.alertType q)) = true)
  /\ (Js.truthy (Req.sourceIp q) = true ->
      contains_opt (text_of (Req.sourceIp q)) (source_ip a))
  /\ (Js.truthy (Req.destinationIp q) = true ->
      contains_opt (text_of (Req.destinationIp q)) (destination_ip a))
  /\ (Js.truthy (Req.timeRange q) = true -> now - hours * 3600 <= created_at a)
  /\ (Js.truthy (Req.search q) = true ->
      contains_ci (text_of (Req.search q)) (alert_type a) = true
      \/ contains_opt (text_of (Req.search q)) (description a)
      \/ contains_opt (text_of (Req.search q)) (source_ip a)).

(** The substring parameters of the request hold no wild card. *)
Definition plain_filters (q : Req.t) : Prop :=
  plain_needle (text_of (Req.sourceIp q)) = true
  /\ plain_needle (text_of (Req.destinationIp q)) = true
  /\ plain_needle (text_of (Req.search q)) = true.

(** A parameter supplied to the one request is supplied, with the same
    value, to the other. *)
Definition keeps (p0 p : option string) : Prop :=
  Js.truthy p0 = true -> p = p0.

(** The request [q] over [hours] asks everything [q0] over [hours0]
    asks, and possibly more: it keeps the predicates of [q0], and its
    time window is no wider. *)
Definition adds_to (q0 : Req.t) (hours0 : Z) (q : Req.t) (hours : Z) : Prop :=
  keeps (Req.severity q0) (Req.severity q)
  /\ keeps (Req.status q0) (Req.status q)
  /\ keeps (Req.alertType q0) (Req.alertType q)
  /\ keeps (Req.sourceIp q0) (Req.sourceIp q)
  /\ keeps (Req.destinationIp q0) (Req.destinationIp q)
  /\ keeps (Req.search q0) (Req.search q)
  /\ (Js.truthy (Req.timeRange q0) = true ->
      Js.truthy (Req.timeRange q) = true /\ hours <= hours0).

(** No predicate is supplied. *)
Definition unfiltered (q : Req.t) : Prop :=
  Js.truthy (Req.severity q) = false
  /\ Js.truthy (Req.status q) = false
  /\ Js.truthy (Req.alertType q) = false
  /\ Js.truthy (Req.sourceIp q) = false
  /\ Js.truthy (Req.destinationIp q) = false
  /\ Js.truthy (Req.timeRange q) = false
  /\ Js.truthy (Req.search q) = false.

(** ** Invariants of the store *)

(** No stored alert carries a [resolved_at]. *)
Definition unresolved_only (st : Store) : Prop :=
  Forall (fun a => resolved_at a = None) (rows st).

(** Ids stay below the AUTO_INCREMENT counter. *)
Definition ids_below_next (st : Store) : Prop :=
  Forall (fun a => id a < next_id st) (rows st).

(** ** Groups, for the proofs *)

(** Two groups have different keys. *)
Definition apart {A : Type} (same : A -> A -> bool) (g1 g2 : list A) : Prop :=
  forall r1 r2, hd_error g1 = Some r1 -> hd_error g2 = Some r2 -> same r1 r2 = false.

(** [groups] are the groups of the rows [pre]: each is the rows of [pre]
    with the key of its first row, no two have the same key, and every
    row of [pre] is in one. *)
Definition grouped {A : Type} (same : A -> A -> bool) (groups : list (list A))
    (pre : list A) : Prop :=
  Forall (fun g => exists r, hd_error g = Some r /\ g = List.filter (same r) pre) groups
  /\ StronglySorted (apart same) groups
  /\ (forall x, In x pre -> Exists (fun g => head_same same g x = true) groups).

(** ** Measures on answers *)

(** The threat levels in increasing order of alarm. *)
Definition level_rank (l : ThreatLevel) : Z :=
  match l with
  | Green => 0
  | Yellow => 1
  | Red => 2
  end.

(** The counts of a breakdown, added up. *)
Definition sum_counts {K : Type} (l : list (K * Z)) : Z :=
  fold_right (fun x acc => snd x + acc) 0 l.

(** The key [severityBreakdown] groups by. *)
Definition same_severity (a b : Alert) : bool :=
  severity_eqb (severity a) (severity b).

(** Ids grow in scan order, from 1 up to the AUTO_INCREMENT counter. *)
Definition ids_increasing (st : Store) : Prop :=
  StronglySorted (fun a b => id a < id b) (rows st)
  /\ Forall (fun a => 1 <= id a < next_id st) (rows st)
  /\ 1 <= next_id st.

(** ** Runs of the interval *)

(** Successive firings of the interval, each with its own draws. *)
Definition ticks (ds : list Live.Draw) (sv : Server) : Server :=
  fold_left (fun s d => Live.tick d s) ds sv.

(** The [new-alert] packet for a stored alert. *)
Definition new_alert_packet (a : Alert) : string * option Alert :=
  ("new-alert", Some a).

(** ** Paging through an answer *)

(** The same request for another page. *)
Definition with_page (page : string) (q : Req.t) : Req.t :=
  Req.mk (Some page) (Req.limit q) (Req.severity q) (Req.status q) (Req.alertType q)
    (Req.sourceIp q) (Req.destinationIp q) (Req.timeRange q) (Req.search q).

(** The alerts a client reads from an answer; a 500 carries none. *)
Definition alerts_of (r : Response AlertsBody) : list Alert :=
  match r with
  | Ok200 body => alerts body
  | Err500 => []
  end.

(** The alerts of page [p], asked for with the page number in decimal. *)
Definition page_alerts (order_by : list Alert -> list Alert) (now : Z) (q : Req.t)
    (st : Store) (p : Z) : list Alert :=
  alerts_of (api_alerts order_by now (with_page (string_of_Z p) q) st).

(** ** Authentication and roles *)

(** What a route sends: a body (status 200), or a bare status with, at
    most, an error message. *)
Inductive Reply (A : Type) :=
| Sent (body : A)
| Refused (code : Z) (error : option string).
Arguments Sent {A} body.
Arguments Refused {A} code error.

(** The payload of a token: what [jwt.sign] is given at login. *)
Record Principal := mkPrincipal {
  p_userId : Z;
  p_username : string;
  p_role : string
}.

(** [s.split(sep)] for a separator of one character. *)
Fixpoint split_on (sep : ascii) (s : string) : list string :=
  match s with
  | EmptyString => [EmptyString]
  | String c s' =>
      if Ascii.eqb c sep then EmptyString :: split_on sep s'
      else match split_on sep s' with
           | h :: t => String c h :: t
           | [] => [String c EmptyString]
           end
  end.

(** [authHeader && authHeader.split(' ')[1]] *)
Definition header_token (authorization : option string) : option string :=
  if Js.truthy authorization
  then nth_error (split_on " " (text_of authorization)) 1
  else None.

(** [authenticateToken]: 401 without a token, 403 when [jwt.verify]
    (here [verify], with the secret inside) rejects it, else the next
    handler with the decoded payload as [req.user]. *)
Definition authenticateToken {A : Type} (verify : string -> option Principal)
    (authorization : option string) (next : Principal -> Reply A) : Reply A :=
  match header_token authorization with
  | Some (String c t) =>
      match verify (String c t) with
      | Some user => next user
      | None => Refused 403 None
      end
  | _ => Refused 401 None
  end.

(** [requireRole(roles)]: [roles.includes(req.user.role)] *)
Definition requireRole {A : Type} (roles : list string) (user : Principal)
    (next : Reply A) : Reply A :=
  if existsb (String.eqb (p_role user)) roles then next
  else Refused 403 (Some "Insufficient permissions").

(** The [try]/[catch] of a handler. *)
Definition reply_of {A : Type} (r : Response A) : Reply A :=
  match r with
  | Ok200 body => Sent body
  | Err500 => Refused 500 (Some "Internal server error")
  end.

(** ** The [users] table *)

Inductive Role := Administrator | SOCAnalyst | SOCManager.

Definition role_name (r : Role) : string :=
  match r with
  | Administrator => "Administrator"
  | SOCAnalyst => "SOC Analyst"
  | SOCManager => "SOC Manager"
  end.

Record User := mkUser {
  u_id : Z;
  u_username : string;
  u_email : string;
  u_password_hash : string;
  u_role : Role;
  u_created_at : Z;
  u_updated_at : Z;
  u_last_login : option Z;
  u_is_active : bool
}.

Record Users := mkUsers {
  u_rows : list User;
  u_next_id : Z
}.

(** [INSERT INTO users (username, email, password_hash, role)] *)
Definition insert_user (now : Z) (username email hash : string) (role : Role)
    (us : Users) : Users :=
  {| u_rows := u_rows us
               ++ [ {| u_id := u_next_id us;
                       u_username := username;
                       u_email := email;
                       u_password_hash := hash;
                       u_role := role;
                       u_created_at := now;
                       u_updated_at := now;
                       u_last_login := None;
                       u_is_active := true |} ];
     u_next_id := u_next_id us + 1 |}.

Definition defaultUsers : list (string * string * Role) :=
  [ ("admin", "admin@soc.local", Administrator);
    ("analyst1", "analyst1@soc.local", SOCAnalyst);
    ("manager1", "manager1@soc.local", SOCManager) ].

(** The users part of [initializeSampleData]: the default users, into
    an empty table only.  [hashes] are the results of the calls of
    [bcrypt.hash('password123', 10)], one per user. *)
Definition create_default_users (now : Z) (hashes : nat -> string) (us : Users) : Users :=
  if Z.of_nat (List.length (u_rows us)) =? 0 then
    fst (fold_left
           (fun '(acc, k) '(username, email, role) =>
              (insert_user now username email (hashes k) role acc, S k))
           defaultUsers (us, O))
  else us.

(** ** POST /api/auth/login *)

Record LoginBody := mkLoginBody {
  l_username : option string;
  l_password : option string
}.

Record LoginUser := mkLoginUser {
  lu_id : Z;
  lu_username : string;
  lu_email : string;
  lu_role : string
}.

Record LoginOk := mkLoginOk {
  l_token : string;
  l_user : LoginUser
}.

Definition principal_of (u : User) : Principal :=
  {| p_userId := u_id u; p_username := u_username u; p_role := role_name (u_role u) |}.

(** [UPDATE users SET last_login = NOW() WHERE id = ?]; the table stamps
    [updated_at] as well. *)
Definition touch_login (now : Z) (k : Z) (us : Users) : Users :=
  {| u_rows := map (fun u => if u_id u =? k
                             then {| u_id := u_id u;
                                     u_username := u_username u;
                                     u_email := u_email u;
                                     u_password_hash := u_password_hash u;
                                     u_role := u_role u;
                                     u_created_at := u_created_at u;
                                     u_updated_at := now;
                                     u_last_login := Some now;
                                     u_is_active := u_is_active u |}
                             else u) (u_rows us);
     u_next_id := u_next_id us |}.

(** The handler, with [bcrypt.compare] and [jwt.sign] as [compare] and
    [sign].  A body without [username] makes [db.execute] reject the
    statement, one without [password] makes [bcrypt.compare] reject:
    both end in the [catch] branch. *)
Definition login (compare : string -> string -> bool) (sign : Principal -> string)
    (now : Z) (body : LoginBody) (us : Users) : Reply LoginOk * Users :=
  match l_username body with
  | None => (Refused 500 (Some "Internal server error"), us)
  | Some username =>
      match List.filter (fun u => Collation.text_eqb (u_username u) username
                                  && u_is_active u) (u_rows us) with
      | [] => (Refused 401 (Some "Invalid credentials"), us)
      | user :: _ =>
          match l_password body with
          | None => (Refused 500 (Some "Internal server error"), us)
          | Some password =>
              if compare password (u_password_hash user) then
                (Sent {| l_token := sign (principal_of user);
                         l_user := {| lu_id := u_id user;
                                      lu_username := u_username user;
                                      lu_email := u_email user;
                                      lu_role := role_name (u_role user) |} |},
                 touch_login now (u_id user) us)
              else (Refused 401 (Some "Invalid credentials"), us)
          end
      end
  end.

(** ** The routes behind the middleware *)

Record UserView := mkUserView {
  v_id : Z;
  v_username : string;
  v_email : string;
  v_role : string;
  v_created_at : Z;
  v_last_login : option Z;
  v_is_active : bool
}.

Definition view_of (u : User) : UserView :=
  {| v_id := u_id u;
     v_username := u_username u;
     v_email := u_email u;
     v_role := role_name (u_role u);
     v_created_at := u_created_at u;
     v_last_login := u_last_login u;
     v_is_active := u_is_active u |}.

(** GET /api/users: [authenticateToken], [requireRole(['Administrator'])],
    then the users, newest first. *)
Definition route_users (verify : string -> option Principal)
    (order_by : list User -> list User) (authorization : option string)
    (us : Users) : Reply (list UserView) :=
  authenticateToken verify authorization
    (fun user => requireRole ["Administrator"] user
                   (Sent (map view_of (order_by (u_rows us))))).

(** GET /api/alerts behind [authenticateToken]. *)
Definition route_alerts (verify : string -> option Principal)
    (order_by : list Alert -> list Alert) (authorization : option string)
    (now : Z) (q : Req.t) (st : Store) : Reply AlertsBody :=
  authenticateToken verify authorization
    (fun _ => reply_of (api_alerts order_by now q st)).

(** GET /api/threats/geographic behind [authenticateToken]. *)
Definition route_geographic (verify : string -> option Principal)
    (authorization : option string) (now : Z) (st : Store) : Reply (list GeoCluster) :=
  authenticateToken verify authorization (fun _ => Sent (geographic_threats now st)).

(** GET /api/dashboard/overview behind [authenticateToken]. *)
Definition route_overview (verify : string -> option Principal)
    (order_by : list (string * Z) -> list (string * Z))
    (authorization : option string) (now : Z) (st : Store) : Reply Overview :=
  authenticateToken verify authorization
    (fun _ => Sent (dashboard_overview order_by now st)).

(** The header the client sends once it holds a token. *)
Definition bearer (token : string) : option string := Some ("Bearer " +:+ token).

(** A text without blanks. *)
Definition no_blank (s : string) : bool :=
  forallb (fun c => negb (Ascii.eqb c " ")) (list_ascii_of_string s).


(** A users table as start-up leaves it, and stand-ins for bcrypt and
    jsonwebtoken: a hash is the password with a salt in front, a token
    names its user. *)
Definition demo_users : Users :=
  create_default_users 1000 (fun k => "salt" +:+ string_of_Z (Z.of_nat k) +:+ "$password123")
    {| u_rows := []; u_next_id := 1 |}.

Definition demo_compare (password hash : string) : bool :=
  existsb (fun k => String.eqb hash ("salt" +:+ string_of_Z k +:+ "$" +:+ password))
    [0; 1; 2].

Definition demo_sign (p : Principal) : string := "jwt." +:+ p_username p.

Definition demo_verify (t : string) : option Principal :=
  match List.filter (fun u => String.eqb t (demo_sign (principal_of u))) (u_rows demo_users) with
  | u :: _ => Some (principal_of u)
  | [] => None
  end.

(** ** The client: threat monitoring *)

(** The filter state of the monitoring view, every field a text. *)
Record Filters := mkFilters {
  f_severity : string;
  f_alertType : string;
  f_sourceIp : string;
  f_destinationIp : string;
  f_timeRange : string;
  f_search : string
}.

(** The state the view starts with and [clearFilters] restores. *)
Definition initial_filters : Filters :=
  {| f_severity := ""; f_alertType := ""; f_sourceIp := ""; f_destinationIp := "";
     f_timeRange := "24"; f_search := "" |}.

(** The parameters [fetchAlerts] appends: the entries of the filter
    state, in their order, whose value is not empty.  A query string is
    taken as the list of its pairs. *)
Definition fetch_params (f : Filters) : list (string * string) :=
  List.filter (fun kv => match snd kv with EmptyString => false | String _ _ => true end)
    [ ("severity", f_severity f); ("alertType", f_alertType f);
      ("sourceIp", f_sourceIp f); ("destinationIp", f_destinationIp f);
      ("timeRange", f_timeRange f); ("search", f_search f) ].

(** [req.query.key] *)
Fixpoint param (key : string) (params : list (string * string)) : option string :=
  match params with
  | [] => None
  | (k, v) :: rest => if String.eqb k key then Some v else param key rest
  end.

(** The destructuring of [req.query] in the alerts handler. *)
Definition query_of (params : list (string * string)) : Req.t :=
  {| Req.page := param "page" params;
     Req.limit := param "limit" params;
     Req.severity := param "severity" params;
     Req.status := param "status" params;
     Req.alertType := param "alertType" params;
     Req.sourceIp := param "sourceIp" params;
     Req.destinationIp := param "destinationIp" params;
     Req.timeRange := param "timeRange" params;
     Req.search := param "search" params |}.

(** The part of the view's state the alerts feed writes. *)
Record Monitor := mkMonitor {
  m_alerts : list Alert;
  m_realTimeCount : Z
}.

Definition initial_monitor : Monitor := {| m_alerts := []; m_realTimeCount := 0 |}.

(** [fetchAlerts], once the answer is in: a body replaces the list, a
    failure is logged and changes nothing. *)
Definition fetched (r : Reply AlertsBody) (m : Monitor) : Monitor :=
  match r with
  | Sent body => {| m_alerts := alerts body; m_realTimeCount := m_realTimeCount m |}
  | Refused _ _ => m
  end.

(** [handleNewAlert]: [[newAlert, ...prev.slice(0, 49)]] and one more on
    the counter.  (It also asks for the clusters again when the alert
    is located, which writes another part of the state.) *)
Definition handleNewAlert (newAlert : Alert) (m : Monitor) : Monitor :=
  {| m_alerts := newAlert :: firstn 49 (m_alerts m);
     m_realTimeCount := m_realTimeCount m + 1 |}.

(** What happens to the feed: an answer to [fetchAlerts] arrives, or a
    [new-alert] packet does. *)
Inductive FeedEvent :=
| Answer (r : Reply AlertsBody)
| Arrival (a : Alert).

Definition feed_step (m : Monitor) (ev : FeedEvent) : Monitor :=
  match ev with
  | Answer r => fetched r m
  | Arrival a => handleNewAlert a m
  end.

(** [createThreatIcon]: the size and the colour of a marker. *)
Definition icon_size (count : Z) : Z := Z.min (Z.max (count * 2 + 20) 20) 40.

Definition icon_color (severity : string) : string :=
  if String.eqb severity "Critical" then "#dc2626"
  else if String.eqb severity "High" then "#ea580c"
  else if String.eqb severity "Medium" then "#d97706"
  else if String.eqb severity "Low" then "#65a30d"
  else "#2563eb".

(** ** The client: CSV export *)

(** [l.join(sep)] *)
Fixpoint join (sep : string) (l : list string) : string :=
  match l with
  | [] => EmptyString
  | [x] => x
  | x :: rest => x +:+ sep +:+ join sep rest
  end.

Definition newline : string := String (ascii_of_nat 10) EmptyString.

Definition csv_header : list string :=
  ["ID"; "Type"; "Severity"; "Source IP"; "Destination IP"; "Description"; "Status";
   "Created At"].

(** The values of one row of [csvData]; [join] writes a null as the
    empty text.  [format] is date-fns' formatting of [created_at]. *)
Definition csv_values (format : Z -> string) (a : Alert) : list string :=
  [ string_of_Z (id a); alert_type a; severity_name (severity a);
    text_of (source_ip a); text_of (destination_ip a); text_of (description a);
    status_name (status a); format (created_at a) ].

(** [Object.values(row).join(',')] *)
Definition csv_line (format : Z -> string) (a : Alert) : string :=
  join "," (csv_values format a).

(** [exportAlerts], up to the text of the file: the header is read off
    the first row, so an empty list throws ([None]). *)
Definition exportAlerts (format : Z -> string) (l : list Alert) : option string :=
  match l with
  | [] => None
  | _ :: _ => Some (join newline (join "," csv_header :: map (csv_line format) l))
  end.

(** The number of times a character occurs in a text. *)
Fixpoint occurrences (c : ascii) (s : string) : nat :=
  match s with
  | EmptyString => O
  | String d s' => (if Ascii.eqb d c then 1 else 0) + occurrences c s'
  end.

(** ** The client: the timeline of the overview *)

(** One row of the answer of GET /api/charts/alerts-timeline, as the
    client receives it. *)
Record ChartPoint := mkChartPoint {
  c_date : string;
  c_severity : string;
  c_count : Z
}.

(** The values the objects of the chart hold. *)
Inductive JsValue :=
| Text (s : string)
| Num (n : Z).

(** [a === b] *)
Definition strict_eq (a b : JsValue) : bool :=
  match a, b with
  | Text s, Text t => String.eqb s t
  | Num n, Num m => n =? m
  | _, _ => false
  end.

(** A plain object: its properties in the order they were created. *)
Definition JsObject := list (string * JsValue).

(** [o[key]]; [None] is [undefined]. *)
Fixpoint get_prop (key : string) (o : JsObject) : option JsValue :=
  match o with
  | [] => None
  | (k, v) :: rest => if String.eqb k key then Some v else get_prop key rest
  end.

(** [o[key] = value] *)
Fixpoint set_prop (key : string) (value : JsValue) (o : JsObject) : JsObject :=
  match o with
  | [] => [(key, value)]
  | (k, v) :: rest =>
      if String.eqb k key then (k, value) :: rest
      else (k, v) :: set_prop key value rest
  end.

(** [d.date === date] *)
Definition has_date (date : string) (d : JsObject) : bool :=
  match get_prop "date" d with
  | Some v => strict_eq v (Text date)
  | None => false
  end.

(** The assignment through the reference [acc.find(p)] returned. *)
Fixpoint update_first {A : Type} (p : A -> bool) (f : A -> A) (acc : list A) : list A :=
  match acc with
  | [] => []
  | d :: rest => if p d then f d :: rest else d :: update_first p f rest
  end.

(** The reducer of [fetchTimelineData]. *)
Definition timeline_step (acc : list JsObject) (item : ChartPoint) : list JsObject :=
  if existsb (has_date (c_date item)) acc
  then update_first (has_date (c_date item))
         (set_prop (c_severity item) (Num (c_count item))) acc
  else acc ++ [ set_prop (c_severity item) (Num (c_count item))
                  [("date", Text (c_date item))] ].

Definition timeline (data : list ChartPoint) : list JsObject :=
  fold_left timeline_step data [].

(** What the chart reads: the property [key] of the first object with
    the date. *)
Definition cell (date key : string) (rows : list JsObject) : option JsValue :=
  match find (has_date date) rows with
  | Some d => get_prop key d
  | None => None
  end.

(** The count of the last row of the answer with the date and the
    severity. *)
Definition latest (date severity : string) (data : list ChartPoint) : option JsValue :=
  match find (fun it => String.eqb (c_date it) date && String.eqb (c_severity it) severity)
          (rev data) with
  | Some it => Some (Num (c_count it))
  | None => None
  end.

(** ** Runs of the monitoring view *)

Definition monitor_run (evs : list FeedEvent) : Monitor :=
  fold_left feed_step evs initial_monitor.

(** The answers are those of GET /api/alerts to the requests of
    [fetchAlerts]. *)
Definition served (ev : FeedEvent) : Prop :=
  match ev with
  | Answer r =>
      exists verify order_by authorization now f st,
        r = route_alerts verify order_by authorization now (query_of (fetch_params f)) st
  | Arrival _ => True
  end.

Definition arrivals (evs : list FeedEvent) : nat :=
  List.length (List.filter (fun ev => match ev with Arrival _ => true | Answer _ => false end)
                 evs).

(** The commas in the values of a row. *)
Definition commas (values : list string) : nat :=
  fold_right (fun v n => (occurrences "," v + n)%nat) O values.

Definition free_of (c : ascii) (values : list string) : Prop :=
  Forall (fun v => occurrences c v = O) values.

Definition newline_char : ascii := ascii_of_nat 10.

(** The characters the file is cut at. *)
Definition separators : list ascii := [","%char; newline_char].

(** The texts of an alert hold none of them. *)
Definition free_texts (a : Alert) : Prop :=
  forall c, In c separators ->
    free_of c [ alert_type a; text_of (source_ip a); text_of (destination_ip a);
                text_of (description a) ].

(** ** Scenarios of the client *)

(** The view asks for the alerts of a table of sixty with the filters
    it starts with, and two alerts arrive. *)
Definition feed_demo : list FeedEvent :=
  Answer (route_alerts demo_verify (sort_scan_order created_at) (bearer "jwt.admin") 0
            (query_of (fetch_params initial_filters)) (many_alerts 60))
  :: map Arrival (rows (many_alerts 2)).

(** A date format without commas, for the examples. *)
Definition demo_format (t : Z) : string := "t+" +:+ string_of_Z t.

(** Two days of the timeline answer, newest first. *)
Definition timeline_demo : list ChartPoint :=
  [ mkChartPoint "2024-01-02" "Critical" 3; mkChartPoint "2024-01-02" "Low" 5;
    mkChartPoint "2024-01-01" "Critical" 1 ].

(** * Properties *)

(** ** The two sorting engines keep the promise of ORDER BY *)

Section Sorting.

Context {A : Type} (k : A -> Z).

Lemma insert_after_perm (a : A) (l : list A) :
  Permutation (a :: l) (insert_after k a l).
Proof.
  induction l as [|b l IH]; simpl; [reflexivity|].
  destruct (k b <? k a); [reflexivity|].
  rewrite perm_swap. now apply perm_skip.
Qed.

Lemma insert_before_perm (a : A) (l : list A) :
  Permutation (a :: l) (insert_before k a l).
Proof.
  induction l as [|b l IH]; simpl; [reflexivity|].
  destruct (k b <=? k a); [reflexivity|].
  rewrite perm_swap. now apply perm_skip.
Qed.

Lemma desc_by_head (a b : A) (l : list A) :
  k b <= k a -> Forall (desc_by k b) l -> Forall (desc_by k a) (b :: l).
Proof.
  intros Hab Hl. constructor; [exact Hab|].
  eapply Forall_impl; [|exact Hl]. unfold desc_by. intros c Hc. lia.
Qed.

Lemma insert_after_sorted (a : A) (l : list A) :
  StronglySorted (desc_by k) l -> StronglySorted (desc_by k) (insert_after k a l).
Proof.
  induction 1 as [|b l Hs IH Hb]; simpl.
  - repeat constructor.
  - destruct (Z.ltb_spec (k b) (k a)) as [Hlt|Hge].
    + constructor; [now constructor|]. apply desc_by_head; [lia|exact Hb].
    + constructor; [exact IH|].
      eapply Permutation_Forall; [apply insert_after_perm|].
      constructor; [exact Hge|exact Hb].
Qed.

Lemma insert_before_sorted (a : A) (l : list A) :
  StronglySorted (desc_by k) l -> StronglySorted (desc_by k) (insert_before k a l).
Proof.
  induction 1 as [|b l Hs IH Hb]; simpl.
  - repeat constructor.
  - destruct (Z.leb_spec (k b) (k a)) as [Hle|Hgt].
    + constructor; [now constructor|]. apply desc_by_head; [lia|exact Hb].
    + constructor; [exact IH|].
      eapply Permutation_Forall; [apply insert_before_perm|].
      constructor; [unfold desc_by; lia|exact Hb].
Qed.

Lemma fold_insert_ok (ins : A -> list A -> list A) :
  (forall a l, Permutation (a :: l) (ins a l)) ->
  (forall a l, StronglySorted (desc_by k) l -> StronglySorted (desc_by k) (ins a l)) ->
  forall l acc,
    StronglySorted (desc_by k) acc ->
    Permutation (acc ++ l) (fold_left (fun acc a => ins a acc) l acc)
    /\ StronglySorted (desc_by k) (fold_left (fun acc a => ins a acc) l acc).
Proof.
  intros Hperm Hsort l.
  induction l as [|a l IH]; intros acc Hacc; simpl.
  - rewrite app_nil_r. split; [reflexivity|exact Hacc].
  - destruct (IH (ins a acc) (Hsort a acc Hacc)) as [Hp Hs].
    split; [|exact Hs].
    rewrite <- Hp, <- Hperm. symmetry. apply Permutation_middle.
Qed.

Lemma sort_scan_order_ok : sql_order_by k (sort_scan_order k).
Proof.
  intros l. unfold sort_scan_order.
  apply (fold_insert_ok (insert_after k) insert_after_perm insert_after_sorted l []).
  constructor.
Qed.

Lemma sort_reverse_scan_ok : sql_order_by k (sort_reverse_scan k).
Proof.
  intros l. unfold sort_reverse_scan.
  apply (fold_insert_ok (insert_before k) insert_before_perm insert_before_sorted l []).
  constructor.
Qed.

Lemma firstn_In (n : nat) (l : list A) (a : A) :
  In a (firstn n l) -> In a l.
Proof.
  intros H. rewrite <- (firstn_skipn n l). apply in_or_app. now left.
Qed.

Lemma skipn_In (n : nat) (l : list A) (a : A) :
  In a (skipn n l) -> In a l.
Proof.
  intros H. rewrite <- (firstn_skipn n l). apply in_or_app. now right.
Qed.




Lemma limit_offset_In (lim off : Z) (l : list A) (a : A) :
  In a (limit_offset lim off l) -> In a l.
Proof.
  unfold limit_offset. intros H.
  eapply skipn_In, firstn_In, H.
Qed.

End Sorting.

(** ** GROUP BY gathers the rows of equal key *)

Section Grouping.

Context {A : Type} (same : A -> A -> bool).
Hypothesis same_refl : forall x, same x x = true.
Hypothesis same_sym : forall x y, same x y = same y x.
Hypothesis same_trans :
  forall x y z, same x y = true -> same y z = true -> same x z = true.

Lemma apart_head_same (g g' : list A) (a : A) :
  apart same g g' -> head_same same g a = true -> head_same same g' a = false.
Proof.
  destruct g as [|r g], g' as [|r' g']; simpl; try easy.
  intros Hap Hr. specialize (Hap r r' eq_refl eq_refl).
  destruct (same r' a) eqn:Hr'; [|reflexivity].
  rewrite (same_trans r a r') in Hap; [discriminate|exact Hr|].
  now rewrite same_sym.
Qed.

(** Adding a row extends the group of its key, or opens a new group
    after the others. *)
Lemma add_to_group_eq (a : A) (groups : list (list A)) :
  StronglySorted (apart same) groups ->
  add_to_group same a groups
  = map (fun g => if head_same same g a then g ++ [a] else g) groups
    ++ (if existsb (fun g => head_same same g a) groups then [] else [[a]]).
Proof.
  induction 1 as [|g gs Hs IH Hg]; simpl; [reflexivity|].
  destruct (head_same same g a) eqn:Hga; simpl.
  - rewrite app_nil_r. f_equal.
    rewrite Forall_forall in Hg.
    rewrite <- (map_id gs) at 1. apply map_ext_in. intros g' Hg'.
    now rewrite (apart_head_same g g' a (Hg g' Hg') Hga).
  - now rewrite IH.
Qed.

Lemma filter_snoc (f : A -> bool) (l : list A) (a : A) :
  List.filter f (l ++ [a]) = List.filter f l ++ (if f a then [a] else []).
Proof. rewrite filter_app. reflexivity. Qed.

Lemma filter_none (f : A -> bool) (l : list A) :
  (forall x, In x l -> f x = false) -> List.filter f l = [].
Proof.
  induction l as [|x l IH]; intros H; simpl; [reflexivity|].
  rewrite (H x (or_introl eq_refl)). apply IH. intros y Hy. apply H. now right.
Qed.

Lemma existsb_head_same (groups : list (list A)) (a : A) :
  existsb (fun g => head_same same g a) groups = false ->
  Forall (fun g => head_same same g a = false) groups.
Proof.
  induction groups as [|g gs IH]; simpl; intros H; constructor;
    apply orb_false_iff in H; [apply H|apply IH, H].
Qed.

Lemma sorted_snoc {B : Type} (R : B -> B -> Prop) (l : list B) (y : B) :
  StronglySorted R l -> Forall (fun x => R x y) l -> StronglySorted R (l ++ [y]).
Proof.
  induction 1 as [|x l Hs IH Hx]; intros Hy; simpl; [repeat constructor|].
  inversion Hy as [|? ? Hxy Hy']; subst.
  constructor; [now apply IH|].
  apply Forall_app. split; [exact Hx|now repeat constructor].
Qed.

Lemma grouped_step (groups : list (list A)) (pre : list A) (a : A) :
  grouped same groups pre ->
  grouped same (add_to_group same a groups) (pre ++ [a]).
Proof.
  intros (Hfil & Hap & Hcov).
  rewrite (add_to_group_eq a groups Hap).
  set (ext := fun g => if head_same same g a then g ++ [a] else g).
  assert (Hhd : forall g, In g groups -> hd_error (ext g) = hd_error g
                                         /\ forall x, head_same same (ext g) x
                                                      = head_same same g x).
  { intros g Hg. rewrite Forall_forall in Hfil.
    destruct (Hfil g Hg) as (r & Hr & _). unfold ext.
    destruct g as [|r0 g]; [discriminate|].
    destruct (head_same same (r0 :: g) a); split; reflexivity. }
  assert (Hext : Forall (fun g => exists r, hd_error g = Some r
                                            /\ g = List.filter (same r) (pre ++ [a]))
                   (map ext groups)).
  { rewrite Forall_forall in *. intros g' Hg'.
    apply in_map_iff in Hg'. destruct Hg' as (g & <- & Hg).
    destruct (Hfil g Hg) as (r & Hr & Hg_eq).
    exists r. split; [now rewrite (proj1 (Hhd g Hg))|].
    rewrite filter_snoc. unfold ext.
    destruct g as [|r0 g0]; [discriminate|].
    injection Hr as ->. simpl head_same.
    destruct (same r a); [now rewrite <- Hg_eq|rewrite app_nil_r; exact Hg_eq]. }
  assert (Hsorted : StronglySorted (apart same) (map ext groups)).
  { clear Hext Hcov. induction Hap as [|g gs Hs IH Hg]; simpl; [constructor|].
    assert (Hfil' : Forall (fun g => exists r, hd_error g = Some r
                                               /\ g = List.filter (same r) pre) gs)
      by now inversion Hfil.
    constructor.
    - apply IH; [exact Hfil'|]. intros g' Hg'. apply Hhd. now right.
    - rewrite Forall_forall in *. intros g' Hg'.
      apply in_map_iff in Hg'. destruct Hg' as (g0 & <- & Hg0).
      intros r1 r2 H1 H2.
      rewrite (proj1 (Hhd g (or_introl eq_refl))) in H1.
      rewrite (proj1 (Hhd g0 (or_intror Hg0))) in H2.
      exact (Hg g0 Hg0 r1 r2 H1 H2). }
  destruct (existsb (fun g => head_same same g a) groups) eqn:Hex.
  - rewrite app_nil_r. split; [exact Hext|]. split; [exact Hsorted|].
    intros x Hx. apply in_app_or in Hx. destruct Hx as [Hx|[<-|[]]].
    + specialize (Hcov x Hx). apply Exists_exists in Hcov.
      destruct Hcov as (g & Hg & Hgx). apply Exists_exists.
      exists (ext g). split; [now apply in_map|].
      now rewrite (proj2 (Hhd g Hg)).
    + apply existsb_exists in Hex. destruct Hex as (g & Hg & Hga).
      apply Exists_exists. exists (ext g). split; [now apply in_map|].
      now rewrite (proj2 (Hhd g Hg)).
  - apply existsb_head_same in Hex.
    assert (Hnone : List.filter (same a) pre = []).
    { apply filter_none. intros x Hx.
      specialize (Hcov x Hx). apply Exists_exists in Hcov.
      destruct Hcov as (g & Hg & Hgx).
      rewrite Forall_forall in Hex. specialize (Hex g Hg).
      destruct g as [|r g]; [discriminate|]. simpl in *.
      destruct (same a x) eqn:Hax; [|reflexivity].
      rewrite (same_trans r x a) in Hex; [discriminate|exact Hgx|].
      now rewrite same_sym. }
    split; [|split].
    + apply Forall_app. split; [exact Hext|].
      repeat constructor. exists a. split; [reflexivity|].
      now rewrite filter_snoc, Hnone, same_refl.
    + apply sorted_snoc; [exact Hsorted|].
      rewrite Forall_forall in *. intros g' Hg'.
      apply in_map_iff in Hg'. destruct Hg' as (g & <- & Hg).
      intros r1 r2 H1 H2. injection H2 as <-.
      rewrite (proj1 (Hhd g Hg)) in H1. specialize (Hex g Hg).
      destruct g as [|r g]; [discriminate|]. injection H1 as <-. exact Hex.
    + intros x Hx. apply in_app_or in Hx. destruct Hx as [Hx|[<-|[]]].
      * specialize (Hcov x Hx). apply Exists_exists in Hcov.
        destruct Hcov as (g & Hg & Hgx). apply Exists_exists.
        exists (ext g). split; [apply in_or_app; left; now apply in_map|].
        now rewrite (proj2 (Hhd g Hg)).
      * apply Exists_exists. exists [a].
        split; [apply in_or_app; right; now left|]. simpl. apply same_refl.
Qed.

Lemma fold_grouped (l : list A) (groups : list (list A)) (pre : list A) :
  grouped same groups pre ->
  grouped same (fold_left (fun gs a => add_to_group same a gs) l groups) (pre ++ l).
Proof.
  revert groups pre. induction l as [|a l IH]; intros groups pre H; simpl.
  - now rewrite app_nil_r.
  - replace (pre ++ a :: l) with ((pre ++ [a]) ++ l) by now rewrite <- app_assoc.
    apply IH. now apply grouped_step.
Qed.

Lemma group_by_grouped (l : list A) : grouped same (group_by same l) l.
Proof.
  apply (fold_grouped l [] []). repeat split; try constructor.
  intros x [].
Qed.

(** Every group of [group_by] is the rows with the key of its first
    row, in scan order. *)
Lemma group_by_spec (l : list A) (g : list A) :
  In g (group_by same l) ->
  exists r, In r l /\ hd_error g = Some r /\ g = List.filter (same r) l.
Proof.
  intros Hg. destruct (group_by_grouped l) as (Hfil & _ & _).
  rewrite Forall_forall in Hfil. destruct (Hfil g Hg) as (r & Hr & Heq).
  exists r. split; [|split; assumption].
  assert (Hin : In r g) by (destruct g; [discriminate|injection Hr as ->; now left]).
  rewrite Heq in Hin. now apply filter_In in Hin.
Qed.

(** Groups with pairwise different keys give pairwise different
    labels, when the label tells the key. *)
Lemma apart_labels_differ (gs : list (list A)) (label : list A -> string) :
  StronglySorted (apart same) gs ->
  (forall g1 g2, In g1 gs -> In g2 gs -> apart same g1 g2 -> label g1 <> label g2) ->
  NoDup (map label gs).
Proof.
  induction 1 as [|g gs Hs IH Hg]; intros Hkey; simpl; constructor.
  - intros Hin. apply in_map_iff in Hin. destruct Hin as (g' & Heq & Hg').
    rewrite Forall_forall in Hg.
    apply (Hkey g g'); [now left|now right|now apply Hg|now symmetry].
  - apply IH. intros g1 g2 H1 H2. apply Hkey; now right.
Qed.

End Grouping.

(** ** Equality of text is an equivalence *)

Lemma text_eqb_refl (x : string) : Collation.text_eqb x x = true.
Proof. apply String.eqb_refl. Qed.

Lemma text_eqb_sym (x y : string) : Collation.text_eqb x y = Collation.text_eqb y x.
Proof. apply String.eqb_sym. Qed.

Lemma text_eqb_trans (x y z : string) :
  Collation.text_eqb x y = true -> Collation.text_eqb y z = true ->
  Collation.text_eqb x z = true.
Proof.
  unfold Collation.text_eqb. rewrite !String.eqb_eq. congruence.
Qed.

(** ** The threat level *)

Lemma critical_recent_spec (now : Z) (a : Alert) :
  critical_recent now a = true <->
  (severity a = Critical \/ severity a = High) /\ now - 3600 <= created_at a.
Proof.
  unfold critical_recent, date_sub_hours, HOUR.
  rewrite andb_true_iff, Z.leb_le.
  destruct (severity a); split; intros [Hs Ht]; split;
    try lia; try reflexivity; try discriminate; auto;
    destruct Hs; discriminate.
Qed.

Lemma threatLevel_of_count_cases (count : Z) :
  (threatLevel_of_count count = Red <-> 10 < count)
  /\ (threatLevel_of_count count = Yellow <-> 5 < count <= 10)
  /\ (threatLevel_of_count count = Green <-> count <= 5).
Proof.
  unfold threatLevel_of_count.
  destruct (Z.ltb_spec 10 count), (Z.ltb_spec 5 count);
    repeat split; intros; try discriminate; try lia; try reflexivity.
Qed.

Lemma counted_filter {A : Type} (P : A -> Prop) (p : A -> bool) (l : list A) :
  (forall a, p a = true <-> P a) ->
  counted P l (Z.of_nat (List.length (List.filter p l))).
Proof.
  intros Hp. induction l as [|a l IH]; cbn [List.filter]; [constructor|].
  destruct (p a) eqn:E.
  - cbn [List.length]. rewrite Nat2Z.inj_succ. unfold Z.succ.
    constructor; [now apply Hp|exact IH].
  - apply counted_out; [|exact IH]. intros H. apply Hp in H. congruence.
Qed.

Lemma counted_unique {A : Type} (P : A -> Prop) (l : list A) (n m : Z) :
  counted P l n -> counted P l m -> n = m.
Proof.
  intros Hn. revert m. induction Hn as [|a l n Ha _ IH|a l n Ha _ IH]; intros m Hm;
    inversion Hm; subst; try contradiction; try reflexivity.
  - f_equal. now apply IH.
  - now apply IH.
Qed.

(** C1. The number the threat level is computed from is the number of
    stored alerts that are Critical or High and were created no earlier
    than one hour before now, and the level depends on the store
    through that number only: Red when it exceeds 10, Yellow when it
    exceeds 5 without exceeding 10, Green otherwise; this is the
    [threatLevel] of the overview.  With one Critical and nine High
    alerts of the last hour the number is 10 and the level Yellow. *)
Theorem threatLevel_thresholds (now : Z) (st : Store) :
  (forall a, critical_recent now a = true <->
             (severity a = Critical \/ severity a = High)
             /\ now - 3600 <= created_at a)
  /\ counted (grave_last_hour now) (rows st) (criticalAlerts now st)
  /\ (forall n,
        counted (grave_last_hour now) (rows st) n ->
        (threatLevel now st = Red <-> 10 < n)
        /\ (threatLevel now st = Yellow <-> 5 < n <= 10)
        /\ (threatLevel now st = Green <-> n <= 5))
  /\ (forall now' st' n,
        counted (grave_last_hour now) (rows st) n ->
        counted (grave_last_hour now') (rows st') n ->
        threatLevel now' st' = threatLevel now st)
  /\ (threatLevel now st = Red <-> 10 < criticalAlerts now st)
  /\ (threatLevel now st = Yellow <-> 5 < criticalAlerts now st <= 10)
  /\ (threatLevel now st = Green <-> criticalAlerts now st <= 5)
  /\ (forall now' st',
        criticalAlerts now' st' = criticalAlerts now st ->
        threatLevel now' st' = threatLevel now st)
  /\ (forall order_by,
        m_threatLevel (metrics (dashboard_overview order_by now st))
        = threatLevel now st)
  /\ (map severity (rows ten_recent) = Critical :: repeat High 9
      /\ Forall (fun a => 7200 - 3600 <= created_at a <= 7200) (rows ten_recent)
      /\ counted (grave_last_hour 7200) (rows ten_recent) 10
      /\ criticalAlerts 7200 ten_recent = 10
      /\ threatLevel 7200 ten_recent = Yellow).
Proof.
  assert (Hc : forall now0 st0,
             counted (grave_last_hour now0) (rows st0) (criticalAlerts now0 st0))
    by (intros now0 st0; apply counted_filter; intros a; apply critical_recent_spec).
  split; [apply critical_recent_spec|].
  destruct (threatLevel_of_count_cases (criticalAlerts now st)) as (Hr & Hy & Hg).
  split; [apply Hc|]. split.
  { intros n Hn. rewrite (counted_unique _ _ _ _ Hn (Hc now st)).
    split; [exact Hr|]. split; [exact Hy|exact Hg]. }
  split.
  { intros now' st' n Hn Hn'. unfold threatLevel.
    now rewrite <- (counted_unique _ _ _ _ Hn (Hc now st)),
      <- (counted_unique _ _ _ _ Hn' (Hc now' st')). }
  split; [exact Hr|]. split; [exact Hy|]. split; [exact Hg|]. split.
  - intros now' st' Heq. unfold threatLevel. now rewrite Heq.
  - split; [reflexivity|].
    split; [reflexivity|]. split; [|split; [apply (Hc 7200 ten_recent)|split; reflexivity]].
    repeat constructor; simpl; lia.
Qed.

(** ** Geographic clusters *)

Lemma text_max_ge_l (a b : Severity) :
  Collation.text_leb (severity_name a) (severity_name (text_max a b)) = true.
Proof. destruct a, b; reflexivity. Qed.

Lemma text_max_ge_r (a b : Severity) :
  Collation.text_leb (severity_name b) (severity_name (text_max a b)) = true.
Proof. destruct a, b; reflexivity. Qed.

Lemma text_max_choice (a b : Severity) : text_max a b = a \/ text_max a b = b.
Proof. destruct a, b; auto. Qed.

Lemma severity_text_trans (a b c : Severity) :
  Collation.text_leb (severity_name a) (severity_name b) = true ->
  Collation.text_leb (severity_name b) (severity_name c) = true ->
  Collation.text_leb (severity_name a) (severity_name c) = true.
Proof. destruct a, b, c; intros H1 H2; try reflexivity; discriminate. Qed.

Lemma fold_text_max (l : list Severity) (s0 : Severity) :
  let m := fold_left text_max l s0 in
  Collation.text_leb (severity_name s0) (severity_name m) = true
  /\ (forall x, In x l ->
        Collation.text_leb (severity_name x) (severity_name m) = true)
  /\ (m = s0 \/ In m l).
Proof.
  revert s0. induction l as [|y l IH]; intros s0; simpl.
  - repeat split; [now destruct s0|contradiction|now left].
  - destruct (IH (text_max s0 y)) as (H0 & Hall & Hin).
    repeat split.
    + eapply severity_text_trans; [apply text_max_ge_l|exact H0].
    + intros x [->|Hx]; [|now apply Hall].
      eapply severity_text_trans; [apply text_max_ge_r|exact H0].
    + destruct Hin as [Hm|Hm]; [|now right; right].
      rewrite Hm. destruct (text_max_choice s0 y) as [->| ->]; [now left|right; now left].
Qed.

Lemma cluster_max_textual (g : list Alert) :
  g <> [] ->
  exists s, max_severity (cluster_of g) = Some s
            /\ In s (map severity g)
            /\ forall a, In a g ->
                 Collation.text_leb (severity_name (severity a)) (severity_name s) = true.
Proof.
  destruct g as [|b g]; [congruence|]. intros _. simpl.
  destruct (fold_text_max (map severity g) (severity b)) as (H0 & Hall & Hm).
  eexists; split; [reflexivity|]. split.
  - destruct Hm as [->|Hm]; [now left|now right].
  - intros a [->|Hin]; [exact H0|]. apply Hall. now apply in_map.
Qed.

Lemma same_text_refl (x : option string) : same_text x x = true.
Proof. destruct x; simpl; [apply text_eqb_refl|reflexivity]. Qed.

Lemma same_text_sym (x y : option string) : same_text x y = same_text y x.
Proof. destruct x, y; simpl; try reflexivity. apply text_eqb_sym. Qed.

Lemma same_text_trans (x y z : option string) :
  same_text x y = true -> same_text y z = true -> same_text x z = true.
Proof. destruct x, y, z; simpl; try easy. apply text_eqb_trans. Qed.

Lemma same_num_refl (x : option Z) : same_num x x = true.
Proof. destruct x; simpl; [apply Z.eqb_refl|reflexivity]. Qed.

Lemma same_num_sym (x y : option Z) : same_num x y = same_num y x.
Proof. destruct x, y; simpl; try reflexivity. apply Z.eqb_sym. Qed.

Lemma same_num_trans (x y z : option Z) :
  same_num x y = true -> same_num y z = true -> same_num x z = true.
Proof. destruct x, y, z; simpl; try easy. rewrite !Z.eqb_eq. congruence. Qed.

Lemma same_place_refl (a : Alert) : same_place a a = true.
Proof.
  unfold same_place. now rewrite !same_text_refl, !same_num_refl.
Qed.

Lemma same_place_sym (a b : Alert) : same_place a b = same_place b a.
Proof.
  unfold same_place.
  now rewrite (same_text_sym (country_code a)), (same_text_sym (city a)),
    (same_num_sym (latitude a)), (same_num_sym (longitude a)).
Qed.

Lemma same_place_trans (a b c : Alert) :
  same_place a b = true -> same_place b c = true -> same_place a c = true.
Proof.
  unfold same_place. rewrite !andb_true_iff.
  intros (((H1 & H2) & H3) & H4) (((K1 & K2) & K3) & K4).
  repeat split; eauto using same_text_trans, same_num_trans.
Qed.

(** C2. Every cluster of the answer stands for the located alerts of the
    last 24 hours at one place, and its [max_severity] is the severity
    among them whose name comes last as text (Critical, High,
    Informational, Low, Medium in increasing order), not the highest in
    rank: the cluster of a Critical and a Medium alert from Beijing
    reports Medium, and next to any other severity Critical is never
    the one reported. *)
Theorem max_severity_is_textual (now : Z) (st : Store) :
  (forall c,
     In c (geographic_threats now st) ->
     exists r g,
       In r g
       /\ g = List.filter (same_place r) (List.filter (located_recent now) (rows st))
       /\ c = cluster_of g
       /\ exists s,
            max_severity c = Some s
            /\ In s (map severity g)
            /\ forall a, In a g ->
                 Collation.text_leb (severity_name (severity a)) (severity_name s) = true)
  /\ (map severity (rows (db after_two_ticks)) = [Critical; Medium]
      /\ exists c, geographic_threats 90020 (db after_two_ticks) = [c]
                   /\ alert_count c = 2
                   /\ max_severity c = Some Medium
                   /\ severity_rank Medium < severity_rank Critical)
  /\ map (fun s => max_of_severities [Critical; s]) [High; Medium; Low; Informational]
     = [Some High; Some Medium; Some Low; Some Informational].
Proof.
  split.
  - intros c Hc. unfold geographic_threats, geo_groups in Hc.
    apply in_map_iff in Hc. destruct Hc as (g & <- & Hg).
    destruct (group_by_spec same_place same_place_refl same_place_sym
                same_place_trans _ g Hg) as (r & Hr & Hhd & Hfil).
    assert (Hin : In r g)
      by (destruct g; [discriminate|injection Hhd as ->; now left]).
    exists r, g. split; [exact Hin|]. split; [exact Hfil|]. split; [reflexivity|].
    apply cluster_max_textual. intros ->. contradiction.
  - split; [|reflexivity]. split; [reflexivity|]. eexists. repeat split.
Qed.

(** ** Alerts are only ever appended, with [resolved_at] left NULL *)

Lemma insert_alert_unresolved (now : Z) (i : Insert) (st : Store) :
  unresolved_only st -> unresolved_only (fst (insert_alert now i st)).
Proof.
  unfold unresolved_only. simpl. intros H.
  apply Forall_app. split; [exact H|]. now repeat constructor.
Qed.

Lemma loop_unresolved (n i0 : nat) (draws : nat -> Sample.Draw) (st : Store) :
  unresolved_only st -> unresolved_only (Sample.loop n i0 draws st).
Proof.
  revert i0 st. induction n as [|n IH]; intros i0 st H; simpl; [exact H|].
  apply IH. now apply insert_alert_unresolved.
Qed.

Lemma generate_unresolved (draws : nat -> Sample.Draw) (st : Store) :
  unresolved_only st ->
  unresolved_only (Sample.generateSampleSecurityData draws st).
Proof.
  intros H. unfold Sample.generateSampleSecurityData.
  destruct (_ <? 100); [now apply loop_unresolved|exact H].
Qed.

Lemma tick_unresolved (d : Live.Draw) (sv : Server) :
  unresolved_only (db sv) -> unresolved_only (db (Live.tick d sv)).
Proof.
  intros H. unfold Live.tick.
  destruct (Live.fires d); [|exact H].
  destruct (insert_alert (Live.clock d) (Live.insert_of d) (db sv)) as [db' k] eqn:E.
  simpl. change db' with (fst (db', k)). rewrite <- E.
  now apply insert_alert_unresolved.
Qed.

Lemma step_unresolved (sv sv' : Server) :
  step sv sv' -> unresolved_only (db sv) -> unresolved_only (db sv').
Proof.
  destruct 1; simpl; intros H; auto using generate_unresolved, tick_unresolved.
Qed.

Lemma reachable_unresolved (sv : Server) :
  reachable sv -> unresolved_only (db sv).
Proof.
  induction 1 as [|sv sv' _ IH Hstep]; [constructor|].
  eapply step_unresolved; eauto.
Qed.

Lemma after_startup_reachable : reachable after_startup.
Proof.
  eapply reach_step; [apply reach_init|].
  exact (step_generate (fun _ => resolved_draw) {| db := empty_store; sockets := ∅ |}).
Qed.

(** C3, as the code has it.  In every state the server reaches, every
    alert of the store has a NULL [resolved_at], whatever its status; so
    a non-NULL [resolved_at] implies status Resolved, and nothing more. *)
Theorem resolved_at_stays_null (sv : Server) (a : Alert) :
  reachable sv -> In a (rows (db sv)) ->
  resolved_at a = None
  /\ (resolved_at a <> None -> status a = Resolved).
Proof.
  intros Hr Hin.
  assert (Hn : resolved_at a = None).
  { apply reachable_unresolved in Hr. unfold unresolved_only in Hr.
    rewrite Forall_forall in Hr. now apply Hr. }
  split; [exact Hn|]. intros Hc. now rewrite Hn in Hc.
Qed.

Lemma resolved_at_stays_null_witness :
  exists a, In a (rows (db after_startup))
            /\ status a = Resolved
            /\ resolved_at a = None.
Proof.
  exists (row_of_insert 2600000 1 (Sample.insert_of resolved_draw)).
  assert (Hin : In (row_of_insert 2600000 1 (Sample.insert_of resolved_draw))
                   (rows (db after_startup))) by (vm_compute; left; reflexivity).
  split; [exact Hin|]. split; [reflexivity|].
  exact (proj1 (resolved_at_stays_null after_startup _ after_startup_reachable Hin)).
Defined.

(** C3, as the specification words it, fails: the generator stores
    alerts with status Resolved and no [resolved_at]. *)
Lemma resolved_without_resolved_at :
  ~ (forall sv a,
       reachable sv -> In a (rows (db sv)) ->
       (resolved_at a <> None <-> status a = Resolved)).
Proof.
  intros H.
  pose (a := row_of_insert 2600000 1 (Sample.insert_of resolved_draw)).
  assert (Hin : In a (rows (db after_startup))) by (vm_compute; left; reflexivity).
  destruct (H after_startup a after_startup_reachable Hin) as [_ Hback].
  apply Hback; reflexivity.
Qed.

(** ** The alert query *)

(** What a 200 answer tells about the request. *)
Lemma api_alerts_ok (order_by : list Alert -> list Alert) (now : Z) (q : Req.t)
    (st : Store) (body : AlertsBody) :
  api_alerts order_by now q st = Ok200 body ->
  exists hours lim pg,
    (if Js.truthy (Req.timeRange q)
     then Js.parseInt (text_of (Req.timeRange q)) else Some 0) = Some hours
    /\ Js.parseInt_or 50 (Req.limit q) = Some lim
    /\ Js.parseInt_or 1 (Req.page q) = Some pg
    /\ 0 <= lim /\ 0 <= (pg - 1) * lim
    /\ body = {| alerts := limit_offset lim ((pg - 1) * lim)
                             (order_by (matching now q hours st));
                 pagination :=
                   {| p_page := pg;
                      p_limit := lim;
                      total := Z.of_nat (List.length (matching now q hours st));
                      pages := Js.ceil_div
                                 (Z.of_nat (List.length (matching now q hours st))) lim |} |}.
Proof.
  unfold api_alerts. intros H.
  destruct (if Js.truthy (Req.timeRange q) then _ else _) as [hours|]; [|discriminate].
  destruct (Js.parseInt_or 50 (Req.limit q)) as [lim|]; [|discriminate].
  destruct (Js.parseInt_or 1 (Req.page q)) as [pg|]; [|discriminate].
  destruct (0 <=? lim) eqn:Hlim; [|discriminate].
  destruct (0 <=? (pg - 1) * lim) eqn:Hoff; [|discriminate].
  simpl in H. injection H as <-.
  exists hours, lim, pg. apply Z.leb_le in Hlim, Hoff. repeat split; assumption.
Qed.




(** ** LIKE with a pattern [%x%] *)

Lemma like_literal (c : ascii) (p s : string) :
  (Ascii.eqb c "%" || Ascii.eqb c "_" || Ascii.eqb c "\")%bool = false ->
  Collation.like (String c p) s
  = match s with
    | EmptyString => false
    | String d s' => Collation.char_eqb c d && Collation.like p s'
    end.
Proof.
  destruct c as [[] [] [] [] [] [] [] []]; intros H; try discriminate H; reflexivity.
Qed.

Lemma like_percent (p s : string) :
  Collation.like (String "%" p) s
  = Collation.like p s
    || match s with
       | EmptyString => false
       | String _ s' => Collation.like (String "%" p) s'
       end.
Proof. destruct s; reflexivity. Qed.

Lemma like_percent_end (s : string) : Collation.like "%" s = true.
Proof.
  induction s as [|c s IH]; rewrite like_percent; [reflexivity|].
  rewrite IH. apply orb_true_r.
Qed.

Lemma like_prefix (x s : string) :
  plain_needle x = true ->
  Collation.like (x +:+ "%") s = starts_with_ci x s.
Proof.
  revert s. induction x as [|c x IH]; intros s Hx.
  - destruct s; apply like_percent_end.
  - unfold plain_needle in Hx. cbn [list_ascii_of_string forallb] in Hx.
    apply andb_true_iff in Hx. destruct Hx as [Hc Hx].
    apply negb_true_iff in Hc.
    change (String c x +:+ "%") with (String c (x +:+ "%")).
    rewrite (like_literal c _ s Hc).
    destruct s as [|d s]; [reflexivity|]. simpl. now rewrite (IH s Hx).
Qed.

Lemma like_contains (x s : string) :
  plain_needle x = true ->
  Collation.like (contains_pattern x) s = contains_ci x s.
Proof.
  intros Hx. change (contains_pattern x) with (String "%" (x +:+ "%")).
  induction s as [|c s IH]; rewrite like_percent, (like_prefix x _ Hx).
  - reflexivity.
  - cbn [contains_ci]. now rewrite IH.
Qed.

(** ** The WHERE clause is the conjunction of the supplied predicates *)

Lemma guard_true (b c : bool) :
  (if b then c else true) = true <-> (b = true -> c = true).
Proof. destruct b; split; auto; intros; discriminate. Qed.

Lemma where_clause_spec (now : Z) (q : Req.t) (hours : Z) (a : Alert) :
  where_clause now q hours a = true <-> where_holds now q hours a.
Proof.
  unfold where_clause, where_holds, date_sub_hours, HOUR.
  rewrite !andb_true_iff, !guard_true, !orb_true_iff, Z.leb_le.
  tauto.
Qed.

Lemma matching_spec (now : Z) (q : Req.t) (hours : Z) (st : Store) (a : Alert) :
  In a (matching now q hours st) <-> In a (rows st) /\ where_holds now q hours a.
Proof.
  unfold matching. now rewrite filter_In, where_clause_spec.
Qed.

Lemma where_holds_weaker (now : Z) (q0 q : Req.t) (hours0 hours : Z) (a : Alert) :
  adds_to q0 hours0 q hours ->
  where_holds now q hours a -> where_holds now q0 hours0 a.
Proof.
  unfold adds_to, keeps, where_holds.
  intros (K1 & K2 & K3 & K4 & K5 & K6 & K7) (S1 & S2 & S3 & S4 & S5 & S6 & S7).
  repeat split; intros T.
  - rewrite <- (K1 T). apply S1. now rewrite (K1 T).
  - rewrite <- (K2 T). apply S2. now rewrite (K2 T).
  - rewrite <- (K3 T). apply S3. now rewrite (K3 T).
  - rewrite <- (K4 T). apply S4. now rewrite (K4 T).
  - rewrite <- (K5 T). apply S5. now rewrite (K5 T).
  - destruct (K7 T) as [T' Hh]. specialize (S6 T'). nia.
  - rewrite <- (K6 T). apply S7. now rewrite (K6 T).
Qed.

Lemma unfiltered_matching (now : Z) (q : Req.t) (hours : Z) (st : Store) :
  unfiltered q -> matching now q hours st = rows st.
Proof.
  intros (U1 & U2 & U3 & U4 & U5 & U6 & U7). unfold matching.
  apply forallb_filter_id. apply forallb_forall. intros a _.
  unfold where_clause. now rewrite U1, U2, U3, U4, U5, U6, U7.
Qed.

Lemma filter_length_le {A : Type} (f g : A -> bool) (l : list A) :
  (forall a, In a l -> f a = true -> g a = true) ->
  (List.length (List.filter f l) <= List.length (List.filter g l))%nat.
Proof.
  induction l as [|a l IH]; intros H; simpl; [lia|].
  assert (IH' := IH (fun x Hx => H x (or_intror Hx))).
  destruct (f a) eqn:Hf.
  - rewrite (H a (or_introl eq_refl) Hf). simpl. lia.
  - destruct (g a); simpl; lia.
Qed.

Lemma like_opt_contains (x : string) (col : option string) :
  plain_needle x = true ->
  Collation.like_opt (contains_pattern x) col = true <-> contains_opt x col.
Proof.
  intros Hx. unfold contains_opt. destruct col as [s|]; cbn [Collation.like_opt].
  - rewrite (like_contains x s Hx). split.
    + intros H. now exists s.
    + intros (s' & Hs & H). now injection Hs as ->.
  - split; [discriminate|]. intros (s' & Hs & _). discriminate.
Qed.

(** Without wild cards in the substring parameters, the WHERE clause
    asks what the specification says. *)
Lemma plain_where_holds (now : Z) (q : Req.t) (hours : Z) (a : Alert) :
  plain_filters q -> where_holds now q hours a <-> satisfies now q hours a.
Proof.
  intros (P1 & P2 & P3). unfold where_holds, satisfies.
  rewrite !(like_opt_contains _ _ P1), !(like_opt_contains _ _ P2),
    !(like_opt_contains _ _ P3), (like_contains _ (alert_type a) P3).
  tauto.
Qed.

(** C5, as the code has it.  Every alert of an answer is a stored alert
    that meets all the supplied predicates at once, the substring
    predicates as [LIKE '%x%'] has them: containment of the supplied
    text, letter case apart, when the text holds no wild card.  A stored
    alert that meets the predicates is counted in [total], absent
    parameters asking nothing (with none supplied, [total] is the size
    of the store); and a request that adds predicates to another, or
    narrows its time window, matches only alerts the other one matches,
    counts no more of them, and answers only alerts of the other's
    answer when that answer holds all the other matches on its first
    page. *)
Theorem filters_and_combined (order_by : list Alert -> list Alert) (now : Z)
    (q : Req.t) (st : Store) (body : AlertsBody) :
  sql_order_by created_at order_by ->
  api_alerts order_by now q st = Ok200 body ->
  exists hours,
    (Js.truthy (Req.timeRange q) = true ->
     Js.parseInt (text_of (Req.timeRange q)) = Some hours)
    /\ (forall a, In a (alerts body) -> In a (rows st) /\ where_holds now q hours a)
    /\ (forall a, In a (rows st) -> where_holds now q hours a ->
                  In a (matching now q hours st))
    /\ (plain_filters q ->
        (forall a, where_holds now q hours a <-> satisfies now q hours a)
        /\ (forall a, In a (alerts body) -> satisfies now q hours a)
        /\ (forall a, In a (rows st) -> satisfies now q hours a ->
                      In a (matching now q hours st)))
    /\ total (pagination body) = Z.of_nat (List.length (matching now q hours st))
    /\ (unfiltered q -> total (pagination body) = Z.of_nat (List.length (rows st)))
    /\ (forall q0 hours0,
          adds_to q0 hours0 q hours ->
          (forall a, In a (matching now q hours st) -> In a (matching now q0 hours0 st))
          /\ (forall a, In a (alerts body) -> In a (matching now q0 hours0 st))
          /\ total (pagination body)
             <= Z.of_nat (List.length (matching now q0 hours0 st))
          /\ (forall order_by0 body0,
                sql_order_by created_at order_by0 ->
                (Js.truthy (Req.timeRange q0) = true ->
                 Js.parseInt (text_of (Req.timeRange q0)) = Some hours0) ->
                api_alerts order_by0 now q0 st = Ok200 body0 ->
                p_page (pagination body0) = 1 ->
                total (pagination body0) <= p_limit (pagination body0) ->
                forall a, In a (alerts body) -> In a (alerts body0))).
Proof.
  intros Hsort Hok.
  destruct (api_alerts_ok _ _ _ _ _ Hok) as (hours & lim & pg & Ht & _ & _ & _ & _ & ->).
  exists hours. simpl.
  assert (Hin : forall a,
             In a (limit_offset lim ((pg - 1) * lim) (order_by (matching now q hours st))) ->
             In a (matching now q hours st)).
  { intros a Ha. apply limit_offset_In in Ha.
    eapply Permutation_in; [symmetry; apply Hsort|exact Ha]. }
  split; [intros T; now rewrite T in Ht|].
  split; [intros a Ha; now apply matching_spec, Hin|].
  split; [intros a Ha Hs; now apply matching_spec|].
  split.
  { intros Hplain. split; [intros a; now apply plain_where_holds|]. split.
    - intros a Ha. apply (plain_where_holds now q hours a Hplain).
      apply Hin, matching_spec in Ha. apply Ha.
    - intros a Ha Hs. apply matching_spec. split; [exact Ha|].
      now apply (plain_where_holds now q hours a Hplain). }
  split; [reflexivity|].
  split; [intros U; now rewrite unfiltered_matching|].
  intros q0 hours0 Hadd.
  assert (Hmatch : forall a,
             In a (matching now q hours st) -> In a (matching now q0 hours0 st)).
  { intros a Ha. apply matching_spec in Ha. destruct Ha as [Hr Hs].
    apply matching_spec. split; [exact Hr|]. eapply where_holds_weaker; eauto. }
  assert (Hsub : forall a,
             In a (limit_offset lim ((pg - 1) * lim) (order_by (matching now q hours st))) ->
             In a (matching now q0 hours0 st))
    by (intros a Ha; now apply Hmatch, Hin).
  split; [exact Hmatch|]. split; [exact Hsub|]. split.
  - apply inj_le. unfold matching. apply filter_length_le. intros a _ Ha.
    apply where_clause_spec. eapply where_holds_weaker; [exact Hadd|].
    now apply where_clause_spec.
  - intros order_by0 body0 Hsort0 Hp0 Hok0 Hpage Hall a Ha.
    destruct (api_alerts_ok _ _ _ _ _ Hok0)
      as (h0 & lim0 & pg0 & Ht0 & _ & _ & Hlim0 & _ & ->).
    simpl in Hpage, Hall |- *. subst pg0.
    assert (Hm : matching now q0 h0 st = matching now q0 hours0 st).
    { destruct (Js.truthy (Req.timeRange q0)) eqn:T.
      - rewrite (Hp0 eq_refl) in Ht0. now injection Ht0 as <-.
      - unfold matching. apply filter_ext. intros x. unfold where_clause.
        now rewrite T. }
    rewrite Hm in *. unfold limit_offset.
    replace (Z.to_nat ((1 - 1) * lim0)) with 0%nat by lia.
    change (skipn 0 ?l) with l.
    rewrite firstn_all2
      by (rewrite <- (Permutation_length (proj1 (Hsort0 _))); lia).
    eapply Permutation_in; [apply Hsort0|]. now apply Hsub.
Qed.

Lemma adds_to_last_day : adds_to last_day 24 high_last_hour 1.
Proof.
  unfold adds_to, keeps. simpl.
  repeat split; try discriminate; lia.
Qed.

Lemma filters_and_combined_witness :
  exists body,
    api_alerts (sort_scan_order created_at) 7200 high_last_hour ten_recent = Ok200 body
    /\ List.length (alerts body) = 9%nat
    /\ (forall a, In a (alerts body) ->
                  severity a = High /\ satisfies 7200 high_last_hour 1 a
                  /\ In a (matching 7200 last_day 24 ten_recent)).
Proof.
  destruct (api_alerts (sort_scan_order created_at) 7200 high_last_hour ten_recent)
    as [body|] eqn:E; [|vm_compute in E; discriminate].
  exists body. split; [reflexivity|].
  destruct (filters_and_combined _ _ _ _ _ (sort_scan_order_ok created_at) E)
    as (hours & Hp & Hsat & _ & Hplain & _ & _ & Hadd).
  specialize (Hp eq_refl). vm_compute in Hp. injection Hp as <-.
  split; [vm_compute in E; injection E as <-; reflexivity|].
  intros a Ha. split; [|split].
  - destruct (Hsat a Ha) as [_ (Hsev & _)]. specialize (Hsev eq_refl).
    destruct (severity a); [discriminate|reflexivity|discriminate..].
  - assert (Hq : plain_filters high_last_hour) by (repeat split).
    destruct (Hplain Hq) as (_ & Hs & _). exact (Hs a Ha).
  - now apply (proj1 (proj2 (Hadd last_day 24 adds_to_last_day))).
Defined.

(** C5, as the specification words it, fails twice.  A source filter of
    [0_0] is answered with the ten alerts from 10.0.0.7, none of which
    contains that text: the [_] of the filter is read as a wild card.
    And with one High alert of the last hour behind fifty newer Low
    ones, the request for the High alerts of the last hour returns that
    alert, while the request for the alerts of the last day, which adds
    nothing to it, returns the fifty Low ones on its page and not that
    alert. *)
Lemma filters_not_as_worded :
  ~ (forall order_by now q st body hours,
       sql_order_by created_at order_by ->
       api_alerts order_by now q st = Ok200 body ->
       (Js.truthy (Req.timeRange q) = true ->
        Js.parseInt (text_of (Req.timeRange q)) = Some hours) ->
       forall a, In a (alerts body) -> satisfies now q hours a)
  /\ ~ (forall order_by now q0 hours0 q hours st body0 body,
          sql_order_by created_at order_by ->
          adds_to q0 hours0 q hours ->
          (Js.truthy (Req.timeRange q0) = true ->
           Js.parseInt (text_of (Req.timeRange q0)) = Some hours0) ->
          (Js.truthy (Req.timeRange q) = true ->
           Js.parseInt (text_of (Req.timeRange q)) = Some hours) ->
          api_alerts order_by now q0 st = Ok200 body0 ->
          api_alerts order_by now q st = Ok200 body ->
          forall a, In a (alerts body) -> In a (alerts body0))
  /\ (exists body,
        api_alerts (sort_scan_order created_at) 7200 wild_source ten_recent = Ok200 body
        /\ List.length (alerts body) = 10%nat
        /\ Forall (fun a => source_ip a = Some "10.0.0.7") (alerts body)
        /\ contains_ci "0_0" "10.0.0.7" = false)
  /\ (exists body0 body,
        api_alerts (sort_scan_order created_at) 7200 last_day high_behind_fifty
        = Ok200 body0
        /\ api_alerts (sort_scan_order created_at) 7200 high_last_hour high_behind_fifty
           = Ok200 body
        /\ map id (alerts body) = [1]
        /\ total (pagination body0) = 51
        /\ List.length (alerts body0) = 50%nat
        /\ ~ In 1 (map id (alerts body0))).
Proof.
  assert (W : exists body,
             api_alerts (sort_scan_order created_at) 7200 wild_source ten_recent
             = Ok200 body
             /\ List.length (alerts body) = 10%nat
             /\ Forall (fun a => source_ip a = Some "10.0.0.7") (alerts body)
             /\ contains_ci "0_0" "10.0.0.7" = false).
  { destruct (api_alerts (sort_scan_order created_at) 7200 wild_source ten_recent)
      as [body|] eqn:E; [|vm_compute in E; discriminate].
    exists body. split; [reflexivity|].
    vm_compute in E. injection E as <-.
    split; [reflexivity|]. split; [repeat constructor|reflexivity]. }
  assert (P : exists body0 body,
             api_alerts (sort_scan_order created_at) 7200 last_day high_behind_fifty
             = Ok200 body0
             /\ api_alerts (sort_scan_order created_at) 7200 high_last_hour
                  high_behind_fifty = Ok200 body
             /\ map id (alerts body) = [1]
             /\ total (pagination body0) = 51
             /\ List.length (alerts body0) = 50%nat
             /\ ~ In 1 (map id (alerts body0))).
  { destruct (api_alerts (sort_scan_order created_at) 7200 last_day high_behind_fifty)
      as [body0|] eqn:E0; [|vm_compute in E0; discriminate].
    destruct (api_alerts (sort_scan_order created_at) 7200 high_last_hour
                high_behind_fifty) as [body|] eqn:E; [|vm_compute in E; discriminate].
    exists body0, body. split; [reflexivity|]. split; [reflexivity|].
    vm_compute in E0, E. injection E0 as <-. injection E as <-.
    split; [reflexivity|]. split; [reflexivity|]. split; [reflexivity|].
    cbn [alerts map id]. intros H.
    repeat (destruct H as [H|H]; [discriminate H|]). exact H. }
  split; [|split; [|split; [exact W|exact P]]].
  - intros H. destruct W as (body & E & _ & Hsrc & Hno).
    destruct (alerts body) as [|a l] eqn:Ea.
    { apply (f_equal (@List.length Alert)) in Ea.
      destruct (api_alerts (sort_scan_order created_at) 7200 wild_source ten_recent)
        as [b|] eqn:E'; [|discriminate].
      injection E as ->. vm_compute in E'. injection E' as <-. discriminate Ea. }
    apply Forall_inv in Hsrc.
    assert (Hs := H _ _ _ _ _ 0 (sort_scan_order_ok created_at) E
                    ltac:(discriminate) a ltac:(rewrite Ea; now left)).
    destruct Hs as (_ & _ & _ & Hc & _).
    destruct (Hc eq_refl) as (s & Hs & Hin).
    rewrite Hsrc in Hs. injection Hs as <-.
    cbn [text_of Req.sourceIp wild_source] in Hin. congruence.
  - intros H. destruct P as (body0 & body & E0 & E & Hid & _ & _ & Hnot).
    destruct (alerts body) as [|a l] eqn:Ea; [discriminate Hid|].
    cbn [map] in Hid. injection Hid as Hida _.
    apply Hnot. rewrite <- Hida. apply in_map.
    apply (H _ _ _ 24 _ 1 _ _ _ (sort_scan_order_ok created_at) adds_to_last_day
             ltac:(reflexivity) ltac:(reflexivity) E0 E).
    rewrite Ea. now left.
Qed.

(** ** The size of a page *)

(** C6, as the code has it.  An answer carries at most as many alerts as
    the limit the request asks for ([parseInt(limit)], 50 when absent);
    the handler puts no bound of its own on that limit. *)
Theorem page_within_requested_limit (order_by : list Alert -> list Alert)
    (now : Z) (q : Req.t) (st : Store) (body : AlertsBody) :
  api_alerts order_by now q st = Ok200 body ->
  Js.parseInt_or 50 (Req.limit q) = Some (p_limit (pagination body))
  /\ Z.of_nat (List.length (alerts body)) <= p_limit (pagination body).
Proof.
  intros Hok.
  destruct (api_alerts_ok _ _ _ _ _ Hok) as (hours & lim & pg & _ & Hl & _ & H0 & _ & ->).
  simpl. split; [exact Hl|].
  unfold limit_offset. rewrite length_firstn. lia.
Qed.

Lemma page_within_requested_limit_witness :
  exists body,
    api_alerts (sort_scan_order created_at) 2600100 first_three (db after_startup)
    = Ok200 body
    /\ p_limit (pagination body) = 3
    /\ Z.of_nat (List.length (alerts body)) <= p_limit (pagination body).
Proof.
  destruct (api_alerts (sort_scan_order created_at) 2600100 first_three (db after_startup))
    as [body|] eqn:E; [|vm_compute in E; discriminate].
  exists body. split; [reflexivity|].
  destruct (page_within_requested_limit _ _ _ _ _ E) as [Hl Hle].
  split; [|exact Hle].
  vm_compute in Hl. now injection Hl.
Defined.

Lemma digits_zeros (n : nat) (a : Z) :
  Js.digits 10 (zeros n) (Some a) = Some (a * 10 ^ Z.of_nat n).
Proof.
  revert a. induction n as [|n IH]; intros a.
  - simpl. f_equal. lia.
  - change (Js.digits 10 (zeros (S n)) (Some a))
      with (Js.digits 10 (zeros n) (Some (a * 10 + 0))).
    rewrite IH, Nat2Z.inj_succ, Z.pow_succ_r by lia. f_equal. lia.
Qed.

Lemma parseInt_big_limit (n : nat) :
  Js.parseInt_or 50 (Req.limit (big_limit n)) = Some (10 ^ Z.of_nat n).
Proof.
  change (Js.parseInt_or 50 (Req.limit (big_limit n)))
    with (match Js.digits 10 (zeros n) (Some 1) with
          | Some m => Some (1 * m)
          | None => None
          end).
  rewrite digits_zeros. f_equal. lia.
Qed.

Lemma store_of_length (now : Z) (l : list Insert) :
  List.length (rows (store_of now l)) = List.length l.
Proof.
  unfold store_of.
  assert (H : forall st,
             List.length (rows (fold_left (fun st i => fst (insert_alert now i st)) l st))
             = (List.length (rows st) + List.length l)%nat).
  { induction l as [|i l IH]; intros st; simpl; [lia|].
    rewrite IH. simpl. rewrite length_app. simpl. lia. }
  now rewrite H.
Qed.

Lemma pow10_gt (n : nat) : Z.of_nat n < 10 ^ Z.of_nat n.
Proof.
  induction n as [|n IH]; [simpl; lia|].
  rewrite Nat2Z.inj_succ, Z.pow_succ_r by lia. lia.
Qed.

(** With a limit of 1 followed by [n] zeros, a store of [n] alerts is
    answered whole. *)
Lemma big_limit_answers_all (order_by : list Alert -> list Alert) (n : nat) :
  sql_order_by created_at order_by ->
  exists body,
    api_alerts order_by 0 (big_limit n) (many_alerts n) = Ok200 body
    /\ List.length (alerts body) = n.
Proof.
  intros Hsort. unfold api_alerts.
  rewrite parseInt_big_limit.
  change (Js.truthy (Req.timeRange (big_limit n))) with false.
  change (Js.parseInt_or 1 (Req.page (big_limit n))) with (Some 1).
  cbv iota beta zeta.
  assert (Hpow := pow10_gt n).
  replace (0 <=? 10 ^ Z.of_nat n) with true by (symmetry; apply Z.leb_le; lia).
  replace (0 <=? (1 - 1) * 10 ^ Z.of_nat n) with true by (symmetry; apply Z.leb_le; lia).
  simpl andb. cbv iota. eexists. split; [reflexivity|]. simpl alerts.
  unfold limit_offset. replace (Z.to_nat ((1 - 1) * 10 ^ Z.of_nat n)) with 0%nat by lia.
  rewrite length_firstn. change (skipn 0 ?l) with l.
  rewrite <- (Permutation_length (proj1 (Hsort _))).
  rewrite unfiltered_matching by (repeat split).
  unfold many_alerts. rewrite store_of_length, repeat_length. lia.
Qed.

(** C6, as the specification words it, fails: whatever the maximum, some
    request is answered with more alerts; with a limit of 1000, the 501
    alerts of a store come in one answer. *)
Lemma no_maximum_page_size :
  ~ (exists M : Z,
       forall order_by now q st body,
         sql_order_by created_at order_by ->
         api_alerts order_by now q st = Ok200 body ->
         Z.of_nat (List.length (alerts body)) <= M)
  /\ (exists body,
        api_alerts (sort_scan_order created_at) 0 (big_limit 3) (many_alerts 501)
        = Ok200 body
        /\ Req.limit (big_limit 3) = Some "1000"
        /\ List.length (alerts body) = 501%nat).
Proof.
  split.
  - intros [M H].
    destruct (big_limit_answers_all (sort_scan_order created_at)
                (S (Z.to_nat M)) (sort_scan_order_ok created_at)) as (body & Hok & Hlen).
    specialize (H _ _ _ _ _ (sort_scan_order_ok created_at) Hok).
    rewrite Hlen in H. lia.
  - destruct (api_alerts (sort_scan_order created_at) 0 (big_limit 3) (many_alerts 501))
      as [body'|] eqn:E; [|vm_compute in E; discriminate].
    exists body'. split; [reflexivity|]. split; [reflexivity|].
    vm_compute in E. injection E as <-. reflexivity.
Qed.

(** ** The most frequent alert types *)

(** Every count of [alert_type_counts] is the number of alerts of the
    last seven days whose type is, as text, the one it is listed with. *)
Lemma alert_type_counts_spec (now : Z) (st : Store) (t : string) (c : Z) :
  In (t, c) (alert_type_counts now st) ->
  1 <= c
  /\ exists r, In r (alerts_since now (7 * 24) st)
               /\ alert_type r = t
               /\ c = Z.of_nat (List.length
                                  (List.filter (fun a => Collation.text_eqb t (alert_type a))
                                     (alerts_since now (7 * 24) st))).
Proof.
  unfold alert_type_counts. intros Hin.
  apply in_map_iff in Hin. destruct Hin as (g & Heq & Hg).
  injection Heq as <- <-.
  destruct (group_by_spec same_type
              (fun a => text_eqb_refl (alert_type a))
              (fun a b => text_eqb_sym (alert_type a) (alert_type b))
              (fun a b c => text_eqb_trans (alert_type a) (alert_type b) (alert_type c))
              _ g Hg) as (r & Hr & Hhd & Hfil).
  destruct g as [|r0 g]; [discriminate|]. injection Hhd as ->.
  split; [simpl; lia|].
  exists r. split; [exact Hr|]. split; [reflexivity|].
  now rewrite Hfil at 1.
Qed.






(** ** Fan-out of published alerts *)

Lemma io_emit_lookup (event : string) (payload : option Alert)
    (socks : gmap string Session) (sid : string) :
  io_emit event payload socks !! sid
  = option_map (fun s => {| rooms := rooms s; inbox := inbox s ++ [(event, payload)] |})
      (socks !! sid).
Proof.
  unfold io_emit. rewrite lookup_fmap. now destruct (socks !! sid).
Qed.

(** One event of another socket, or an emit, seen from the socket [sid]. *)
Lemma handle_lookup (ev : SocketEvent) (socks : gmap string Session)
    (sid : string) (s : Session) :
  socks !! sid = Some s ->
  touches sid ev = false ->
  exists s', handle ev socks !! sid = Some s'
             /\ inbox s' = inbox s ++ emitted [ev].
Proof.
  intros Hs Ht. destruct ev as [sid'|sid' role|sid'|event payload]; simpl in *.
  - apply String.eqb_neq in Ht. exists s. rewrite app_nil_r. split; [|reflexivity].
    unfold on_connection. now rewrite lookup_insert_ne.
  - unfold join_role. destruct (decide (sid' = sid)) as [->|Hne].
    + rewrite lookup_alter_eq, Hs. simpl. eexists. split; [reflexivity|].
      simpl. now rewrite app_nil_r.
    + rewrite lookup_alter_ne by exact Hne. exists s. now rewrite app_nil_r.
  - apply String.eqb_neq in Ht. exists s. rewrite app_nil_r. split; [|reflexivity].
    unfold on_disconnect. now rewrite lookup_delete_ne.
  - rewrite io_emit_lookup, Hs. simpl. eexists. split; reflexivity.
Qed.

Lemma run_lookup (evs : list SocketEvent) (socks : gmap string Session)
    (sid : string) (s : Session) :
  socks !! sid = Some s ->
  forallb (fun ev => negb (touches sid ev)) evs = true ->
  exists s', run evs socks !! sid = Some s'
             /\ inbox s' = inbox s ++ emitted evs.
Proof.
  revert socks s. induction evs as [|ev evs IH]; intros socks s Hs Hall.
  - exists s. simpl. now rewrite app_nil_r.
  - simpl in Hall. apply andb_true_iff in Hall. destruct Hall as [Hev Hall].
    apply negb_true_iff in Hev.
    destruct (handle_lookup ev socks sid s Hs Hev) as (s1 & Hs1 & Hin1).
    destruct (IH (handle ev socks) s1 Hs1 Hall) as (s' & Hs' & Hin').
    exists s'. split; [exact Hs'|].
    rewrite Hin', Hin1, <- app_assoc. f_equal.
    simpl. now rewrite app_nil_r.
Qed.

Lemma insert_alert_ids (now : Z) (i : Insert) (st : Store) :
  ids_below_next st -> ids_below_next (fst (insert_alert now i st)).
Proof.
  unfold ids_below_next. simpl. intros H.
  apply Forall_app. split.
  - eapply Forall_impl; [|exact H]. simpl. intros a Ha. lia.
  - repeat constructor. simpl. lia.
Qed.

Lemma loop_ids (n i0 : nat) (draws : nat -> Sample.Draw) (st : Store) :
  ids_below_next st -> ids_below_next (Sample.loop n i0 draws st).
Proof.
  revert i0 st. induction n as [|n IH]; intros i0 st H; simpl; [exact H|].
  apply IH. now apply insert_alert_ids.
Qed.

Lemma step_ids (sv sv' : Server) :
  step sv sv' -> ids_below_next (db sv) -> ids_below_next (db sv').
Proof.
  destruct 1 as [draws sv|d sv|sid sv|sid role sv|sid sv]; simpl; intros H; auto.
  - unfold Sample.generateSampleSecurityData.
    destruct (_ <? 100); [now apply loop_ids|exact H].
  - unfold Live.tick. destruct (Live.fires d); [|exact H].
    destruct (insert_alert (Live.clock d) (Live.insert_of d) (db sv)) as [db' k] eqn:E.
    simpl. change db' with (fst (db', k)). rewrite <- E.
    now apply insert_alert_ids.
Qed.

Lemma reachable_ids (sv : Server) : reachable sv -> ids_below_next (db sv).
Proof.
  induction 1 as [|sv sv' _ IH Hstep]; [constructor|].
  eapply step_ids; eauto.
Qed.

(** The SELECT after the INSERT reads the new row and no other. *)
Lemma select_inserted (now : Z) (i : Insert) (st : Store) :
  ids_below_next st ->
  select_by_id (snd (insert_alert now i st)) (fst (insert_alert now i st))
  = [row_of_insert now (next_id st) i].
Proof.
  unfold ids_below_next, select_by_id. simpl. intros H.
  rewrite filter_app. simpl. rewrite Z.eqb_refl.
  replace (List.filter (fun a => id a =? next_id st) (rows st)) with (@nil Alert);
    [reflexivity|].
  symmetry. induction H as [|a l Ha _ IH]; simpl; [reflexivity|].
  destruct (Z.eqb_spec (id a) (next_id st)); [lia|exact IH].
Qed.

Lemma tick_fires (d : Live.Draw) (sv : Server) :
  ids_below_next (db sv) -> Live.fires d = true ->
  Live.tick d sv
  = {| db := fst (insert_alert (Live.clock d) (Live.insert_of d) (db sv));
       sockets := io_emit "new-alert"
                    (Some (row_of_insert (Live.clock d) (next_id (db sv)) (Live.insert_of d)))
                    (sockets sv) |}.
Proof.
  intros Hids Hf. unfold Live.tick. rewrite Hf.
  pose proof (select_inserted (Live.clock d) (Live.insert_of d) (db sv) Hids) as Hsel.
  destruct (insert_alert (Live.clock d) (Live.insert_of d) (db sv)) as [db' k].
  simpl in Hsel. now rewrite Hsel.
Qed.

(** C9. A socket that is connected receives each emitted packet exactly
    once, appended to what it received before, whatever rooms it is in
    or joins meanwhile: after any run of events that neither opens nor
    closes it, it has received the emitted packets of the run in the
    order of the emits.  A firing of the interval hands the alert it has
    just stored to the socket in this way. *)
Theorem publish_reaches_every_socket (socks : gmap string Session)
    (sid : string) (s : Session) :
  socks !! sid = Some s ->
  (forall event payload,
     io_emit event payload socks !! sid
     = Some {| rooms := rooms s; inbox := inbox s ++ [(event, payload)] |})
  /\ (forall evs,
        forallb (fun ev => negb (touches sid ev)) evs = true ->
        exists s', run evs socks !! sid = Some s'
                   /\ inbox s' = inbox s ++ emitted evs)
  /\ (forall sv d,
        reachable sv -> sockets sv = socks -> Live.fires d = true ->
        exists a,
          rows (db (Live.tick d sv)) = rows (db sv) ++ [a]
          /\ sockets (Live.tick d sv) !! sid
             = Some {| rooms := rooms s; inbox := inbox s ++ [("new-alert", Some a)] |}).
Proof.
  intros Hs. split; [|split].
  - intros event payload. now rewrite io_emit_lookup, Hs.
  - intros evs Hall. now apply run_lookup.
  - intros sv d Hr <- Hf.
    rewrite (tick_fires d sv (reachable_ids sv Hr) Hf). simpl.
    eexists. split; [reflexivity|]. now rewrite io_emit_lookup, Hs.
Qed.

Lemma publish_reaches_every_socket_witness :
  exists s',
    run busy_run two_sockets !! "s2" = Some s'
    /\ inbox s' = [ ("new-alert", hd_error (rows (db after_two_ticks)));
                    ("new-alert", nth_error (rows (db after_two_ticks)) 1) ].
Proof.
  assert (Hs : two_sockets !! "s2" = Some {| rooms := {["s2"]}; inbox := [] |}).
  { unfold two_sockets, join_role, on_connection.
    rewrite lookup_alter_ne by discriminate. apply lookup_insert_eq. }
  destruct (publish_reaches_every_socket two_sockets "s2" _ Hs) as (_ & Hrun & _).
  destruct (Hrun busy_run eq_refl) as (s' & Hs' & Hin).
  exists s'. split; [exact Hs'|exact Hin].
Defined.

(** ** The pagination block *)

Lemma ceil_div_spec (a b : Z) :
  0 < b ->
  exists p, Js.ceil_div a b = Js.Int p /\ (p - 1) * b < a <= p * b.
Proof.
  intros Hb. unfold Js.ceil_div.
  destruct (Z.eqb_spec b 0) as [->|_]; [lia|].
  eexists. split; [reflexivity|].
  pose proof (Z.div_mod (a + b - 1) b ltac:(lia)) as Hdm.
  pose proof (Z.mod_pos_bound (a + b - 1) b Hb) as Hr.
  nia.
Qed.

(** C10. In a 200 answer the page and the limit are the parsed request
    parameters (1 and 50 when absent); [total] is the number of stored
    alerts that meet the filter, and the alerts of the answer are the
    page at offset [(page - 1) * limit] of those same alerts in sorted
    order, so their number is [limit] cut down to what is left after the
    offset; and for a positive limit [pages] is the ceiling of
    [total / limit], the least [p] with [total <= p * limit]. *)
Theorem pagination_consistent (order_by : list Alert -> list Alert) (now : Z)
    (q : Req.t) (st : Store) (body : AlertsBody) :
  sql_order_by created_at order_by ->
  api_alerts order_by now q st = Ok200 body ->
  let pg := p_page (pagination body) in
  let lim := p_limit (pagination body) in
  let n := total (pagination body) in
  exists hours,
    (Js.truthy (Req.timeRange q) = true ->
     Js.parseInt (text_of (Req.timeRange q)) = Some hours)
    /\ Js.parseInt_or 1 (Req.page q) = Some pg
    /\ Js.parseInt_or 50 (Req.limit q) = Some lim
    /\ n = Z.of_nat (List.length (List.filter (where_clause now q hours) (rows st)))
    /\ (exists sorted,
          Permutation (List.filter (where_clause now q hours) (rows st)) sorted
          /\ StronglySorted (desc_by created_at) sorted
          /\ alerts body = limit_offset lim ((pg - 1) * lim) sorted)
    /\ Z.of_nat (List.length (alerts body)) = Z.min lim (Z.max 0 (n - (pg - 1) * lim))
    /\ (0 < lim -> exists p, pages (pagination body) = Js.Int p
                             /\ (p - 1) * lim < n <= p * lim)
    /\ (lim = 0 -> pages (pagination body) = if n =? 0 then Js.NaN else Js.Infinity).
Proof.
  intros Hsort Hok.
  destruct (api_alerts_ok _ _ _ _ _ Hok)
    as (hours & lim & pg & Ht & Hl & Hp & Hlim & Hoff & ->).
  simpl. exists hours.
  split; [intros T; now rewrite T in Ht|].
  split; [exact Hp|]. split; [exact Hl|]. split; [reflexivity|].
  split; [|split; [|split]].
  - exists (order_by (matching now q hours st)).
    split; [apply Hsort|]. split; [apply Hsort|reflexivity].
  - unfold limit_offset. rewrite length_firstn, length_skipn.
    rewrite <- (Permutation_length (proj1 (Hsort _))).
    unfold matching. lia.
  - intros Hpos. now apply ceil_div_spec.
  - intros ->. reflexivity.
Qed.

Lemma pagination_consistent_witness :
  exists body,
    api_alerts (sort_scan_order created_at) 2600100 first_three (db after_startup)
    = Ok200 body
    /\ pagination body
       = {| p_page := 1; p_limit := 3; total := 150; pages := Js.Int 50 |}
    /\ exists p, pages (pagination body) = Js.Int p
                 /\ (p - 1) * p_limit (pagination body) < total (pagination body)
                    <= p * p_limit (pagination body).
Proof.
  destruct (api_alerts (sort_scan_order created_at) 2600100 first_three (db after_startup))
    as [body|] eqn:E; [|vm_compute in E; discriminate].
  exists body. split; [reflexivity|].
  destruct (pagination_consistent _ _ _ _ _ (sort_scan_order_ok created_at) E)
    as (hours & _ & _ & _ & _ & _ & _ & Hpages & _).
  assert (Hb : pagination body
               = {| p_page := 1; p_limit := 3; total := 150; pages := Js.Int 50 |})
    by (vm_compute in E; injection E as <-; reflexivity).
  split; [exact Hb|].
  apply Hpages. rewrite Hb. simpl. lia.
Defined.

(** ** The store only grows *)

Lemma loop_appends (n i0 : nat) (draws : nat -> Sample.Draw) (st : Store) :
  exists l, rows (Sample.loop n i0 draws st) = rows st ++ l.
Proof.
  revert i0 st. induction n as [|n IH]; intros i0 st.
  - exists []. simpl. now rewrite app_nil_r.
  - destruct (IH (S i0) (fst (insert_alert (Sample.clock (draws i0))
                               (Sample.insert_of (draws i0)) st))) as [l Hl].
    change (Sample.loop (S n) i0 draws st)
      with (Sample.loop n (S i0) draws
              (fst (insert_alert (Sample.clock (draws i0))
                      (Sample.insert_of (draws i0)) st))).
    rewrite Hl. simpl. rewrite <- app_assoc. eauto.
Qed.

(** No transition of the server rewrites or removes a stored alert: the
    rows of the old store are the first rows of the new one, unchanged,
    status included. *)
Lemma step_appends (sv sv' : Server) :
  step sv sv' -> exists l, rows (db sv') = rows (db sv) ++ l.
Proof.
  destruct 1 as [draws sv|d sv|sid sv|sid role sv|sid sv]; simpl;
    try (exists []; now rewrite app_nil_r).
  - unfold Sample.generateSampleSecurityData.
    destruct (_ <? 100); [apply loop_appends|exists []; now rewrite app_nil_r].
  - unfold Live.tick. destruct (Live.fires d); [|exists []; now rewrite app_nil_r].
    destruct (insert_alert (Live.clock d) (Live.insert_of d) (db sv)) as [db' k] eqn:E.
    simpl. injection E as <- _. simpl. eauto.
Qed.

(** * Further properties of the server *)

(** ** The overview answer is consistent with itself *)

Lemma since_length_le (now h1 h2 : Z) (st : Store) :
  h1 <= h2 -> count_since now h1 st <= count_since now h2 st.
Proof.
  intros Hh. unfold count_since, alerts_since. apply inj_le.
  apply filter_length_le. intros a _. unfold date_sub_hours, HOUR.
  rewrite !Z.leb_le. lia.
Qed.

Lemma critical_within_day (now : Z) (st : Store) :
  criticalAlerts now st <= count_since now 24 st.
Proof.
  unfold criticalAlerts, count_since, alerts_since. apply inj_le.
  apply filter_length_le. intros a _. unfold critical_recent, date_sub_hours, HOUR.
  rewrite andb_true_iff, !Z.leb_le. lia.
Qed.

(** X1. In one overview answer the three window counts are nested,
    [0 <= alerts24h <= alerts7d <= alerts30d <= ] the size of the table,
    and the threat level is backed by [alerts24h]: Red needs more than
    10 alerts of the last day, Yellow more than 5. *)
Theorem overview_metrics_nested (order_by : list (string * Z) -> list (string * Z))
    (now : Z) (st : Store) :
  let m := metrics (dashboard_overview order_by now st) in
  0 <= alerts24h m <= alerts7d m
  /\ alerts7d m <= alerts30d m <= Z.of_nat (List.length (rows st))
  /\ (m_threatLevel m = Red -> 10 < alerts24h m)
  /\ (m_threatLevel m = Yellow -> 5 < alerts24h m).
Proof.
  cbn zeta. simpl.
  pose proof (since_length_le now 24 (7 * 24) st ltac:(lia)) as H1.
  pose proof (since_length_le now (7 * 24) (30 * 24) st ltac:(lia)) as H2.
  pose proof (critical_within_day now st) as H3.
  destruct (threatLevel_of_count_cases (criticalAlerts now st)) as (Hr & Hy & _).
  assert (H0 : 0 <= count_since now 24 st) by (unfold count_since; lia).
  assert (H4 : count_since now (30 * 24) st <= Z.of_nat (List.length (rows st))).
  { unfold count_since, alerts_since. apply inj_le, List.filter_length_le. }
  repeat split; try lia.
  - intros HR. apply Hr in HR. lia.
  - intros HY. apply Hy in HY. lia.
Qed.

(** ** Group counts add up *)

Lemma add_to_group_size {A : Type} (same : A -> A -> bool) (a : A)
    (groups : list (list A)) :
  List.length (List.concat (add_to_group same a groups))
  = S (List.length (List.concat groups)).
Proof.
  induction groups as [|g gs IH]; simpl; [reflexivity|].
  destruct (head_same same g a); simpl.
  - rewrite !length_app. simpl. lia.
  - rewrite !length_app, IH. lia.
Qed.

Lemma group_by_size {A : Type} (same : A -> A -> bool) (l : list A) :
  List.length (List.concat (group_by same l)) = List.length l.
Proof.
  unfold group_by.
  assert (H : forall gs,
             List.length (List.concat (fold_left (fun groups a => add_to_group same a groups) l gs))
             = (List.length (List.concat gs) + List.length l)%nat).
  { induction l as [|a l IH]; intros gs; simpl; [lia|].
    rewrite IH, add_to_group_size. lia. }
  now rewrite H.
Qed.

Lemma sum_counts_cons {K : Type} (x : K * Z) (l : list (K * Z)) :
  sum_counts (x :: l) = snd x + sum_counts l.
Proof. reflexivity. Qed.

Lemma sum_counts_groups {A K : Type} (label : list A -> K) (gs : list (list A)) :
  sum_counts (map (fun g => (label g, Z.of_nat (List.length g))) gs)
  = Z.of_nat (List.length (List.concat gs)).
Proof.
  induction gs as [|g gs IH]; [reflexivity|].
  cbn [map List.concat]. rewrite sum_counts_cons, IH, length_app. cbn [snd]. lia.
Qed.

Lemma sum_counts_perm {K : Type} (l l' : list (K * Z)) :
  Permutation l l' -> sum_counts l = sum_counts l'.
Proof.
  induction 1; rewrite ?sum_counts_cons; lia.
Qed.

Lemma sum_counts_firstn {K : Type} (n : nat) (l : list (K * Z)) :
  Forall (fun x => 0 <= snd x) l ->
  0 <= sum_counts (firstn n l) <= sum_counts l.
Proof.
  intros H. revert n. induction H as [|x l Hx Hl IH]; intros [|n];
    cbn [firstn]; rewrite ?sum_counts_cons.
  - cbn. lia.
  - cbn. lia.
  - specialize (IH 0%nat). cbn [firstn] in IH. cbn [sum_counts fold_right] in *. lia.
  - specialize (IH n). lia.
Qed.

Lemma severity_eqb_eq (a b : Severity) : severity_eqb a b = true <-> a = b.
Proof. destruct a, b; simpl; split; intros H; try reflexivity; discriminate. Qed.

Lemma same_severity_refl (a : Alert) : same_severity a a = true.
Proof. now apply severity_eqb_eq. Qed.

Lemma same_severity_sym (a b : Alert) : same_severity a b = same_severity b a.
Proof. unfold same_severity. now destruct (severity a), (severity b). Qed.

Lemma same_severity_trans (a b c : Alert) :
  same_severity a b = true -> same_severity b c = true -> same_severity a c = true.
Proof. unfold same_severity. rewrite !severity_eqb_eq. congruence. Qed.

(** X2. The severity breakdown of the overview lists each severity at
    most once, only severities that occur among the alerts of the last
    24 hours and each with the number of those alerts, every such alert
    is counted under its severity, and the counts add up to
    [alerts24h]. *)
Theorem severityBreakdown_partitions (now : Z) (st : Store) :
  NoDup (map fst (severityBreakdown now st))
  /\ sum_counts (severityBreakdown now st) = count_since now 24 st
  /\ (forall s c,
        In (s, c) (severityBreakdown now st) ->
        1 <= c
        /\ c = Z.of_nat (List.length
                           (List.filter (fun a => severity_eqb s (severity a))
                              (alerts_since now 24 st))))
  /\ (forall a,
        In a (alerts_since now 24 st) ->
        exists c, In (severity a, c) (severityBreakdown now st)).
Proof.
  unfold severityBreakdown.
  change (fun a b : Alert => severity_eqb (severity a) (severity b)) with same_severity.
  set (l := alerts_since now 24 st).
  set (label := fun g : list Alert => match g with a :: _ => severity a | [] => Critical end).
  destruct (group_by_grouped same_severity same_severity_refl same_severity_sym
              same_severity_trans l) as (Hfil & Hap & Hcov).
  rewrite Forall_forall in Hfil.
  split; [|split; [|split]].
  - rewrite map_map. simpl.
    apply (NoDup_map_inv severity_name). rewrite map_map.
    apply (apart_labels_differ same_severity); [exact Hap|].
    intros g1 g2 H1 H2 Hapart Heq.
    destruct (Hfil g1 H1) as (r1 & Hr1 & _), (Hfil g2 H2) as (r2 & Hr2 & _).
    specialize (Hapart r1 r2 Hr1 Hr2).
    destruct g1 as [|x1 g1]; [discriminate|]. destruct g2 as [|x2 g2]; [discriminate|].
    injection Hr1 as ->. injection Hr2 as ->.
    unfold same_severity in Hapart.
    destruct (severity r1), (severity r2); discriminate.
  - rewrite (sum_counts_groups label), group_by_size. reflexivity.
  - intros s c Hin. apply in_map_iff in Hin. destruct Hin as (g & Heq & Hg).
    injection Heq as <- <-.
    destruct (Hfil g Hg) as (r & Hr & Heq).
    destruct g as [|r0 g]; [discriminate|]. injection Hr as ->.
    split; [simpl; lia|]. simpl label. now rewrite Heq at 1.
  - intros a Ha. specialize (Hcov a Ha). apply Exists_exists in Hcov.
    destruct Hcov as (g & Hg & Hga).
    exists (Z.of_nat (List.length g)). apply in_map_iff. exists g. split; [|exact Hg].
    destruct g as [|r g]; [discriminate|]. simpl in *.
    apply severity_eqb_eq in Hga. now rewrite Hga.
Qed.

(** X3. The counts [topAlertTypes] lists never add up to more than
    [alerts7d], and they add up to exactly [alerts7d] when the alerts of
    the last seven days are of at most five types. *)
Theorem topAlertTypes_counts_add_up (order_by : list (string * Z) -> list (string * Z))
    (now : Z) (st : Store) :
  sql_order_by snd order_by ->
  0 <= sum_counts (topAlertTypes order_by now st) <= count_since now (7 * 24) st
  /\ ((List.length (alert_type_counts now st) <= 5)%nat ->
      sum_counts (topAlertTypes order_by now st) = count_since now (7 * 24) st).
Proof.
  intros Hsort.
  assert (Hall : sum_counts (order_by (alert_type_counts now st))
                 = count_since now (7 * 24) st).
  { rewrite <- (sum_counts_perm _ _ (proj1 (Hsort _))).
    unfold alert_type_counts. rewrite (sum_counts_groups type_of_group), group_by_size.
    reflexivity. }
  unfold topAlertTypes. split.
  - rewrite <- Hall. apply sum_counts_firstn.
    eapply Permutation_Forall; [apply Hsort|].
    apply Forall_forall. intros [t c] Hin.
    apply alert_type_counts_spec in Hin. simpl. lia.
  - intros Hlen. rewrite firstn_all2; [exact Hall|].
    now rewrite <- (Permutation_length (proj1 (Hsort _))).
Qed.

Lemma topAlertTypes_counts_add_up_witness :
  sum_counts (topAlertTypes (sort_scan_order snd) 90020 (db after_two_ticks)) = 2
  /\ count_since 90020 (7 * 24) (db after_two_ticks) = 2.
Proof.
  destruct (topAlertTypes_counts_add_up (sort_scan_order snd) 90020 (db after_two_ticks)
              (sort_scan_order_ok snd)) as [_ Heq].
  split; [|reflexivity]. rewrite Heq; [reflexivity|]. vm_compute. lia.
Defined.

(** ** The threat level under the transitions of the server *)

Lemma threatLevel_of_count_mono (c c' : Z) :
  c <= c' -> level_rank (threatLevel_of_count c) <= level_rank (threatLevel_of_count c').
Proof.
  intros H. unfold threatLevel_of_count.
  destruct (Z.ltb_spec 10 c), (Z.ltb_spec 10 c'), (Z.ltb_spec 5 c), (Z.ltb_spec 5 c');
    simpl; lia.
Qed.

(** X4. No transition of the server lowers the threat level of a given
    instant: the generator and the firings only add alerts, so the level
    falls only as the hour moves on. *)
Theorem threatLevel_not_lowered (sv sv' : Server) (now : Z) :
  step sv sv' ->
  criticalAlerts now (db sv) <= criticalAlerts now (db sv')
  /\ level_rank (threatLevel now (db sv)) <= level_rank (threatLevel now (db sv')).
Proof.
  intros Hstep. destruct (step_appends sv sv' Hstep) as [l Hl].
  assert (Hc : criticalAlerts now (db sv) <= criticalAlerts now (db sv')).
  { unfold criticalAlerts. rewrite Hl, filter_app, length_app. lia. }
  split; [exact Hc|]. now apply threatLevel_of_count_mono.
Qed.

Lemma threatLevel_not_lowered_witness :
  criticalAlerts 90005 empty_store = 0
  /\ criticalAlerts 90005 (db (Live.tick first_tick {| db := empty_store; sockets := ∅ |})) = 1
  /\ level_rank (threatLevel 90005 empty_store)
     <= level_rank (threatLevel 90005
                      (db (Live.tick first_tick {| db := empty_store; sockets := ∅ |}))).
Proof.
  split; [reflexivity|]. split; [reflexivity|].
  exact (proj2 (threatLevel_not_lowered {| db := empty_store; sockets := ∅ |} _ 90005
                  (step_tick first_tick {| db := empty_store; sockets := ∅ |}))).
Defined.

(** ** Ids identify the stored alerts *)

Lemma insert_alert_increasing (now : Z) (i : Insert) (st : Store) :
  ids_increasing st -> ids_increasing (fst (insert_alert now i st)).
Proof.
  intros (Hs & Hb & H1). unfold ids_increasing. simpl. split; [|split; [|lia]].
  - apply sorted_snoc; [exact Hs|].
    eapply Forall_impl; [|exact Hb]. simpl. intros a Ha. lia.
  - apply Forall_app. split.
    + eapply Forall_impl; [|exact Hb]. simpl. intros a Ha. lia.
    + repeat constructor; simpl; lia.
Qed.

Lemma loop_increasing (n i0 : nat) (draws : nat -> Sample.Draw) (st : Store) :
  ids_increasing st -> ids_increasing (Sample.loop n i0 draws st).
Proof.
  revert i0 st. induction n as [|n IH]; intros i0 st H; simpl; [exact H|].
  apply IH. now apply insert_alert_increasing.
Qed.

Lemma step_increasing (sv sv' : Server) :
  step sv sv' -> ids_increasing (db sv) -> ids_increasing (db sv').
Proof.
  destruct 1 as [draws sv|d sv|sid sv|sid role sv|sid sv]; simpl; intros H; auto.
  - unfold Sample.generateSampleSecurityData.
    destruct (_ <? 100); [now apply loop_increasing|exact H].
  - unfold Live.tick. destruct (Live.fires d); [|exact H].
    destruct (insert_alert (Live.clock d) (Live.insert_of d) (db sv)) as [db' k] eqn:E.
    simpl. change db' with (fst (db', k)). rewrite <- E.
    now apply insert_alert_increasing.
Qed.

Lemma reachable_increasing (sv : Server) : reachable sv -> ids_increasing (db sv).
Proof.
  induction 1 as [|sv sv' _ IH Hstep].
  - split; [constructor|]. split; [constructor|]. simpl. lia.
  - eapply step_increasing; eauto.
Qed.

Lemma increasing_select (l : list Alert) (a : Alert) :
  StronglySorted (fun a b => id a < id b) l ->
  In a l -> List.filter (fun b => id b =? id a) l = [a].
Proof.
  induction 1 as [|b l Hs IH Hb]; intros Hin; [contradiction|].
  rewrite Forall_forall in Hb. simpl.
  destruct Hin as [->|Hin].
  - rewrite Z.eqb_refl. f_equal. apply filter_none.
    intros x Hx. specialize (Hb x Hx). apply Z.eqb_neq. lia.
  - specialize (Hb a Hin).
    destruct (Z.eqb_spec (id b) (id a)); [lia|]. now apply IH.
Qed.

Lemma increasing_select_le (l : list Alert) (k : Z) :
  StronglySorted (fun a b => id a < id b) l ->
  (List.length (List.filter (fun b => (id b =? k)%Z) l) <= 1)%nat.
Proof.
  induction 1 as [|b l Hs IH Hb]; simpl; [lia|].
  destruct (Z.eqb_spec (id b) k) as [<-|_]; [|exact IH].
  rewrite Forall_forall in Hb.
  rewrite (filter_none (fun x => id x =? id b) l); [simpl; lia|].
  intros x Hx. specialize (Hb x Hx). apply Z.eqb_neq. lia.
Qed.

(** X5. In every state the server reaches the ids of the stored alerts
    are positive, below the AUTO_INCREMENT counter and pairwise
    different; a lookup by id finds at most one alert, and for the id
    of a stored alert exactly that alert; an unknown id finds nothing.
    The next INSERT returns the counter as [insertId], under which the
    row it wrote is then found. *)
Theorem ids_identify_alerts (sv : Server) :
  reachable sv ->
  NoDup (map id (rows (db sv)))
  /\ (forall a, In a (rows (db sv)) ->
                1 <= id a < next_id (db sv)
                /\ select_by_id (id a) (db sv) = [a])
  /\ (forall k, (List.length (select_by_id k (db sv)) <= 1)%nat)
  /\ (forall k, k < 1 \/ next_id (db sv) <= k -> select_by_id k (db sv) = [])
  /\ (forall now i,
        snd (insert_alert now i (db sv)) = next_id (db sv)
        /\ select_by_id (snd (insert_alert now i (db sv)))
             (fst (insert_alert now i (db sv)))
           = [row_of_insert now (next_id (db sv)) i]).
Proof.
  intros Hr. destruct (reachable_increasing sv Hr) as (Hs & Hb & H1).
  rewrite Forall_forall in Hb.
  split; [|split; [|split; [|split]]].
  - clear Hb. induction Hs as [|b l Hs IH Hl]; simpl; constructor; [|exact IH].
    intros Hin. apply in_map_iff in Hin. destruct Hin as (x & Heq & Hx).
    rewrite Forall_forall in Hl. specialize (Hl x Hx). lia.
  - intros a Ha. split; [now apply Hb|]. now apply increasing_select.
  - intros k. now apply increasing_select_le.
  - intros k Hk. apply filter_none. intros x Hx. specialize (Hb x Hx).
    apply Z.eqb_neq. lia.
  - intros now i. split; [reflexivity|].
    apply select_inserted, reachable_ids, Hr.
Qed.

Lemma ids_identify_alerts_witness :
  NoDup (map id (rows (db after_two_ticks)))
  /\ map id (rows (db after_two_ticks)) = [1; 2]
  /\ map alert_type (select_by_id 2 (db after_two_ticks)) = ["Failed Login"]
  /\ select_by_id 3 (db after_two_ticks) = [].
Proof.
  assert (Hr : reachable after_two_ticks).
  { eapply reach_step; [eapply reach_step; [apply reach_init|]|]; apply step_tick. }
  split; [exact (proj1 (ids_identify_alerts after_two_ticks Hr))|].
  repeat split.
Defined.

(** ** The generator runs once *)

Lemma loop_length (n i0 : nat) (draws : nat -> Sample.Draw) (st : Store) :
  List.length (rows (Sample.loop n i0 draws st)) = (List.length (rows st) + n)%nat.
Proof.
  revert i0 st. induction n as [|n IH]; intros i0 st; [simpl; lia|].
  change (Sample.loop (S n) i0 draws st)
    with (Sample.loop n (S i0) draws
            (fst (insert_alert (Sample.clock (draws i0))
                    (Sample.insert_of (draws i0)) st))).
  rewrite IH. simpl. rewrite length_app. simpl. lia.
Qed.

(** X6. [generateSampleSecurityData] adds its 150 alerts to a table of
    fewer than 100 and leaves a fuller table alone; either way the table
    then holds at least 100 alerts, so a second run, at the next
    restart, adds nothing, whatever it would have drawn. *)
Theorem generator_runs_once (draws draws' : nat -> Sample.Draw) (st : Store) :
  let st' := Sample.generateSampleSecurityData draws st in
  ((List.length (rows st) < 100)%nat ->
   List.length (rows st') = (List.length (rows st) + 150)%nat)
  /\ ((100 <= List.length (rows st))%nat -> st' = st)
  /\ (100 <= List.length (rows st'))%nat
  /\ Sample.generateSampleSecurityData draws' st' = st'.
Proof.
  cbv zeta. unfold Sample.generateSampleSecurityData.
  destruct (Z.ltb_spec (Z.of_nat (List.length (rows st))) 100) as [Hlt|Hge].
  - rewrite loop_length.
    destruct (Z.ltb_spec (Z.of_nat (List.length (rows st) + 150)) 100) as [Hlt'|_]; [lia|].
    repeat split; try lia.
  - destruct (Z.ltb_spec (Z.of_nat (List.length (rows st))) 100) as [Hlt'|_]; [lia|].
    repeat split; try lia.
Qed.

(** ** The live feed is the tail of the store *)

Lemma live_alert_is_new (now k : Z) (d : Live.Draw) :
  status (row_of_insert now k (Live.insert_of d)) = New.
Proof.
  unfold Live.insert_of. destruct (Live.r_source d) as [[[s1 s2] s3] s4]. reflexivity.
Qed.

(** X7. Over any number of firings of the interval, a socket that stays
    connected receives exactly the alerts the firings store, one packet
    per stored alert and in the order of storing; a firing whose draw
    does not fire stores nothing and sends nothing.  Every alert sent
    this way has status New. *)
Theorem live_feed_matches_store (ds : list Live.Draw) (sv : Server)
    (sid : string) (s : Session) :
  reachable sv ->
  sockets sv !! sid = Some s ->
  exists new_rows,
    rows (db (ticks ds sv)) = rows (db sv) ++ new_rows
    /\ List.length new_rows = List.length (List.filter Live.fires ds)
    /\ Forall (fun a => status a = New) new_rows
    /\ sockets (ticks ds sv) !! sid
       = Some {| rooms := rooms s;
                 inbox := inbox s ++ map new_alert_packet new_rows |}.
Proof.
  revert sv s. induction ds as [|d ds IH]; intros sv s Hr Hs.
  - exists []. simpl. rewrite !app_nil_r. repeat split; [constructor|].
    rewrite Hs. now destruct s.
  - assert (Hr' : reachable (Live.tick d sv))
      by (eapply reach_step; [exact Hr|apply step_tick]).
    change (ticks (d :: ds) sv) with (ticks ds (Live.tick d sv)).
    simpl List.filter. destruct (Live.fires d) eqn:Hf.
    + pose proof (tick_fires d sv (reachable_ids sv Hr) Hf) as Ht.
      set (a := row_of_insert (Live.clock d) (next_id (db sv)) (Live.insert_of d)) in *.
      assert (Hs' : sockets (Live.tick d sv) !! sid
                    = Some {| rooms := rooms s; inbox := inbox s ++ [new_alert_packet a] |}).
      { rewrite Ht. simpl. now rewrite io_emit_lookup, Hs. }
      destruct (IH _ _ Hr' Hs') as (new_rows & Hrows & Hlen & Hnew & Hsock).
      exists (a :: new_rows). split; [|split; [|split]].
      * rewrite Hrows, Ht. simpl. now rewrite <- app_assoc.
      * simpl. now rewrite Hlen.
      * constructor; [apply live_alert_is_new|exact Hnew].
      * rewrite Hsock. simpl. now rewrite <- app_assoc.
    + assert (Ht : Live.tick d sv = sv) by (unfold Live.tick; now rewrite Hf).
      rewrite Ht in *. now apply IH.
Qed.

Lemma live_feed_matches_store_witness :
  exists new_rows,
    rows (db (ticks [first_tick; second_tick]
                {| db := empty_store; sockets := on_connection "s1" ∅ |}))
    = new_rows
    /\ map id new_rows = [1; 2]
    /\ sockets (ticks [first_tick; second_tick]
                  {| db := empty_store; sockets := on_connection "s1" ∅ |}) !! "s1"
       = Some {| rooms := {["s1"]}; inbox := map new_alert_packet new_rows |}.
Proof.
  assert (Hr : reachable {| db := empty_store; sockets := on_connection "s1" ∅ |}).
  { eapply reach_step; [apply reach_init|].
    exact (step_connection "s1" {| db := empty_store; sockets := ∅ |}). }
  destruct (live_feed_matches_store [first_tick; second_tick] _ "s1"
              {| rooms := {["s1"]}; inbox := [] |} Hr (lookup_insert_eq _ _ _))
    as (new_rows & Hrows & Hlen & _ & Hsock).
  exists new_rows. split; [exact Hrows|]. split; [|exact Hsock].
  simpl in Hrows. rewrite <- Hrows. reflexivity.
Defined.

(** ** Decimal text and [parseInt] *)

Lemma digits_step (c : ascii) (s : string) (a : Z) :
  Js.digits 10 (String c s) (Some a)
  = match Js.digit 10 c with
    | Some v => Js.digits 10 s (Some (a * 10 + v))
    | None => Some a
    end.
Proof. reflexivity. Qed.

Ltac eval_digit :=
  rewrite digits_step;
  match goal with
  | |- context [Js.digit 10 ?c] =>
      let r := eval vm_compute in (Js.digit 10 c) in
      change (Js.digit 10 c) with r
  end;
  cbv iota beta.

Lemma digits_uint_acc (d : Decimal.uint) (acc : positive) :
  Js.digits 10 (DecimalString.NilEmpty.string_of_uint d) (Some (Z.pos acc))
  = Some (Z.pos (Pos.of_uint_acc d acc)).
Proof.
  revert acc. induction d; intros acc; [reflexivity|..];
    cbn [DecimalString.NilEmpty.string_of_uint Pos.of_uint_acc];
    eval_digit; rewrite <- IHd; f_equal; f_equal; lia.
Qed.

Lemma digits_uint_zero (d : Decimal.uint) :
  Js.digits 10 (DecimalString.NilEmpty.string_of_uint d) (Some 0)
  = Some (Z.of_N (Pos.of_uint d)).
Proof.
  induction d; [reflexivity|..];
    cbn [DecimalString.NilEmpty.string_of_uint Pos.of_uint];
    eval_digit; [exact IHd|apply (digits_uint_acc d)..].
Qed.

Lemma parseInt_uint (d : Decimal.uint) :
  d <> Decimal.Nil ->
  Js.parseInt (DecimalString.NilEmpty.string_of_uint d) = Some (Z.of_N (Pos.of_uint d))
  /\ Js.parseInt (String "-" (DecimalString.NilEmpty.string_of_uint d))
     = Some (- Z.of_N (Pos.of_uint d)).
Proof.
  intros Hd.
  assert (H : Js.parseInt (DecimalString.NilEmpty.string_of_uint d)
              = match Js.digits 10 (DecimalString.NilEmpty.string_of_uint d) (Some 0) with
                | Some n => Some (1 * n)
                | None => None
                end
              /\ Js.parseInt (String "-" (DecimalString.NilEmpty.string_of_uint d))
                 = match Js.digits 10 (DecimalString.NilEmpty.string_of_uint d) (Some 0) with
                   | Some n => Some (-1 * n)
                   | None => None
                   end).
  { destruct d as [|d|d|d|d|d|d|d|d|d|d]; [congruence|..];
      destruct d; split; reflexivity. }
  destruct H as [H1 H2]. rewrite H1, H2, digits_uint_zero.
  split; f_equal; lia.
Qed.

Lemma parseInt_decimal (n : Z) : Js.parseInt (string_of_Z n) = Some n.
Proof.
  unfold string_of_Z. destruct n as [|p|p]; [reflexivity|..];
    pose proof (DecimalPos.Unsigned.to_uint_nonnil p) as Hn;
    destruct (parseInt_uint (Pos.to_uint p) Hn) as [H1 H2];
    rewrite DecimalPos.Unsigned.of_to in H1, H2;
    cbn [Z.to_int DecimalString.NilZero.string_of_int].
  - unfold DecimalString.NilZero.string_of_uint.
    destruct (Pos.to_uint p) eqn:E; [congruence|..]; exact H1.
  - unfold DecimalString.NilZero.string_of_uint.
    destruct (Pos.to_uint p) eqn:E; [congruence|..]; exact H2.
Qed.

(** ** Paging through the whole answer *)

Lemma chunks_concat {A : Type} (n k : nat) (l : list A) :
  (0 < n)%nat -> (List.length l <= k * n)%nat ->
  List.concat (map (fun i => firstn n (skipn (i * n) l)) (seq 0 k)) = l.
Proof.
  intros Hn. revert l. induction k as [|k IH]; intros l Hl.
  - destruct l; [reflexivity|simpl in Hl; lia].
  - cbn [seq map List.concat]. rewrite <- seq_shift, map_map.
    rewrite (map_ext _ (fun i => firstn n (skipn (i * n) (skipn n l)))).
    + rewrite IH; [apply firstn_skipn|]. rewrite length_skipn. lia.
    + intros i. rewrite skipn_skipn. do 2 f_equal. lia.
Qed.

Lemma api_alerts_page (order_by : list Alert -> list Alert) (now : Z) (q : Req.t)
    (st : Store) (hours lim p : Z) :
  (if Js.truthy (Req.timeRange q)
   then Js.parseInt (text_of (Req.timeRange q)) else Some 0) = Some hours ->
  Js.parseInt_or 50 (Req.limit q) = Some lim ->
  0 <= lim -> 1 <= p ->
  page_alerts order_by now q st p
  = limit_offset lim ((p - 1) * lim) (order_by (matching now q hours st)).
Proof.
  intros Ht Hl Hlim Hp. unfold page_alerts, api_alerts.
  change (Req.timeRange (with_page (string_of_Z p) q)) with (Req.timeRange q).
  change (Req.limit (with_page (string_of_Z p) q)) with (Req.limit q).
  change (Js.parseInt_or 1 (Req.page (with_page (string_of_Z p) q)))
    with (Js.parseInt (string_of_Z p)).
  rewrite Ht, Hl, parseInt_decimal.
  replace (0 <=? lim) with true by (symmetry; apply Z.leb_le; lia).
  replace (0 <=? (p - 1) * lim) with true by (symmetry; apply Z.leb_le; nia).
  reflexivity.
Qed.

(** X10. With a positive limit, and an engine that orders the matching
    alerts the same way at every call, the pages 1 to [pages] of a
    request, one after the other, are exactly the ordered matching
    alerts: paging shows every matching alert once and none twice.  A
    page after the last is answered with no alerts. *)
Theorem pages_cover_the_answer (order_by : list Alert -> list Alert) (now : Z)
    (q : Req.t) (st : Store) (hours lim P : Z) :
  sql_order_by created_at order_by ->
  (if Js.truthy (Req.timeRange q)
   then Js.parseInt (text_of (Req.timeRange q)) else Some 0) = Some hours ->
  Js.parseInt_or 50 (Req.limit q) = Some lim ->
  0 < lim ->
  Js.ceil_div (Z.of_nat (List.length (matching now q hours st))) lim = Js.Int P ->
  List.concat (map (fun i => page_alerts order_by now q st (Z.of_nat i))
                 (seq 1 (Z.to_nat P)))
  = order_by (matching now q hours st)
  /\ (forall p, P < p -> page_alerts order_by now q st p = []).
Proof.
  intros Hsort Ht Hl Hlim HP.
  destruct (ceil_div_spec (Z.of_nat (List.length (matching now q hours st))) lim Hlim)
    as (P' & HP' & Hlo & Hhi).
  rewrite HP in HP'. injection HP' as <-.
  pose proof (Permutation_length (proj1 (Hsort (matching now q hours st)))) as Hlen.
  set (sorted := order_by (matching now q hours st)) in *.
  assert (HP0 : 0 <= P) by nia.
  assert (Hcov : (List.length sorted <= Z.to_nat P * Z.to_nat lim)%nat).
  { rewrite <- Hlen. apply Nat2Z.inj_le.
    rewrite Nat2Z.inj_mul, !Z2Nat.id by lia. exact Hhi. }
  split.
  - rewrite <- seq_shift, map_map.
    rewrite (map_ext _ (fun i => firstn (Z.to_nat lim)
                                   (skipn (i * Z.to_nat lim) sorted))).
    + apply chunks_concat; [lia|exact Hcov].
    + intros i. rewrite (api_alerts_page _ _ _ _ hours lim) by (assumption || lia).
      unfold limit_offset. fold sorted. do 2 f_equal.
      replace ((Z.of_nat (S i) - 1) * lim) with (Z.of_nat i * lim) by lia.
      rewrite Z2Nat.inj_mul by lia. now rewrite Nat2Z.id.
  - intros p Hp. rewrite (api_alerts_page _ _ _ _ hours lim) by (assumption || lia).
    unfold limit_offset. fold sorted. rewrite skipn_all2; [now destruct (Z.to_nat lim)|].
    rewrite <- Hlen. apply Nat2Z.inj_le. rewrite Z2Nat.id by nia. nia.
Qed.

Lemma pages_cover_the_answer_witness :
  List.concat (map (fun i => page_alerts (sort_scan_order created_at) 2600100
                               first_three (db after_startup) (Z.of_nat i))
                 (seq 1 (Z.to_nat 50)))
  = sort_scan_order created_at (matching 2600100 first_three 0 (db after_startup))
  /\ (forall p, 50 < p ->
       page_alerts (sort_scan_order created_at) 2600100 first_three (db after_startup) p
       = []).
Proof.
  assert (HP : Js.ceil_div
                 (Z.of_nat (List.length (matching 2600100 first_three 0 (db after_startup))))
                 3 = Js.Int 50) by (vm_compute; reflexivity).
  assert (Hl : Js.parseInt_or 50 (Req.limit first_three) = Some 3)
    by (vm_compute; reflexivity).
  exact (pages_cover_the_answer (sort_scan_order created_at) 2600100 first_three
           (db after_startup) 0 3 50 (sort_scan_order_ok created_at)
           eq_refl Hl ltac:(lia) HP).
Defined.

(** ** LIKE with a plain needle is containment *)

Lemma starts_with_ci_spec (x s : string) :
  starts_with_ci x s = true <->
  exists mid post, s = mid +:+ post /\ Collation.key mid = Collation.key x.
Proof.
  revert s. induction x as [|c x IH]; intros s.
  - split; [intros _; exists "", s; now split|now destruct s].
  - destruct s as [|d s]; simpl.
    + split; [discriminate|]. intros (mid & post & Hs & Hk).
      destruct mid; simpl in *; discriminate.
    + rewrite andb_true_iff, IH. unfold Collation.char_eqb. rewrite Ascii.eqb_eq.
      split.
      * intros (Hc & mid & post & -> & Hk). exists (String d mid), post.
        split; [reflexivity|]. simpl. now rewrite Hk, Hc.
      * intros (mid & post & Hs & Hk). destruct mid as [|m mid]; [discriminate|].
        simpl in Hs, Hk. injection Hs as -> ->. injection Hk as Hm Hk.
        split; [now symmetry|]. now exists mid, post.
Qed.

Lemma contains_ci_spec (x s : string) :
  contains_ci x s = true <->
  exists pre mid post,
    s = pre +:+ mid +:+ post /\ Collation.key mid = Collation.key x.
Proof.
  induction s as [|c s IH]; cbn [contains_ci]; rewrite orb_true_iff, starts_with_ci_spec.
  - split.
    + intros [(mid & post & Hs & Hk)|H]; [|discriminate]. now exists "", mid, post.
    + intros (pre & mid & post & Hs & Hk). left.
      destruct pre; [|discriminate]. now exists mid, post.
  - rewrite IH. split.
    + intros [(mid & post & Hs & Hk)|(pre & mid & post & Hs & Hk)].
      * now exists "", mid, post.
      * exists (String c pre), mid, post. split; [|exact Hk]. simpl. now rewrite Hs.
    + intros (pre & mid & post & Hs & Hk). destruct pre as [|p pre].
      * left. now exists mid, post.
      * right. simpl in Hs. injection Hs as _ Hs. now exists pre, mid, post.
Qed.

(** X11. For a needle without [%], [_] and backslash, [LIKE '%needle%']
    holds exactly of the texts that contain the needle, letter case
    apart; so a [sourceIp] filter of that kind keeps only alerts whose
    [source_ip] is present and contains it. *)
Theorem like_is_containment (x : string) :
  plain_needle x = true ->
  (forall s,
     Collation.like (contains_pattern x) s = true <->
     exists pre mid post,
       s = pre +:+ mid +:+ post /\ Collation.key mid = Collation.key x)
  /\ (forall now q hours a,
        Req.sourceIp q = Some x -> x <> "" ->
        where_clause now q hours a = true ->
        exists ip pre mid post,
          source_ip a = Some ip
          /\ ip = pre +:+ mid +:+ post
          /\ Collation.key mid = Collation.key x).
Proof.
  intros Hx.
  assert (Hs : forall s,
             Collation.like (contains_pattern x) s = true <->
             exists pre mid post,
               s = pre +:+ mid +:+ post /\ Collation.key mid = Collation.key x)
    by (intros s; now rewrite (like_contains x s Hx), contains_ci_spec).
  split; [exact Hs|].
  intros now q hours a Hq Hne Hw. apply where_clause_spec in Hw.
  destruct Hw as (_ & _ & _ & Hsrc & _).
  rewrite Hq in Hsrc. simpl in Hsrc.
  assert (T : Js.truthy (Some x) = true) by (destruct x; [congruence|reflexivity]).
  specialize (Hsrc T). destruct (source_ip a) as [ip|]; [|discriminate].
  simpl in Hsrc. apply Hs in Hsrc. destruct Hsrc as (pre & mid & post & Hip & Hk).
  now exists ip, pre, mid, post.
Qed.

Lemma like_is_containment_witness :
  Collation.like (contains_pattern "68.1.") "192.168.1.100" = true
  /\ Collation.like (contains_pattern "68.2.") "192.168.1.100" = false.
Proof.
  split; [|reflexivity].
  apply (proj1 (like_is_containment "68.1." eq_refl)).
  now exists "192.1", "68.1.", "100".
Defined.

(** X12. The wild cards of a needle are not escaped: a needle of [%]
    matches every text and one of [_] every text that is not empty (so
    [1_2] matches [10.1.2.3]). *)
Theorem like_wild_cards_unescaped (s : string) :
  Collation.like (contains_pattern "%") s = true
  /\ Collation.like (contains_pattern "_") s = negb (String.eqb s "")
  /\ Collation.like (contains_pattern "1_2") "10.1.2.3" = true.
Proof.
  assert (Hall : forall p t, Collation.like p t = true ->
                             Collation.like (String "%" p) t = true).
  { intros p t H. rewrite like_percent, H. reflexivity. }
  split; [|split; [|reflexivity]].
  - apply Hall. change ("%" +:+ "%") with (String "%" "%").
    apply Hall, like_percent_end.
  - change (contains_pattern "_") with (String "%" (String "_" "%")).
    induction s as [|c s IH]; [reflexivity|].
    rewrite like_percent.
    change (Collation.like (String "_" "%") (String c s)) with (Collation.like "%" s).
    now rewrite like_percent_end.
Qed.

(** ** The token in the Authorization header *)

Lemma no_blank_cons (c : ascii) (s : string) :
  no_blank (String c s) = negb (Ascii.eqb c " ") && no_blank s.
Proof. reflexivity. Qed.

Lemma split_on_nonempty (sep : ascii) (s : string) : split_on sep s <> [].
Proof.
  induction s as [|c s IH]; simpl; [discriminate|].
  destruct (Ascii.eqb c sep); [discriminate|].
  destruct (split_on sep s); [contradiction|discriminate].
Qed.

Lemma split_word (w rest : string) :
  no_blank w = true ->
  split_on " " (w +:+ " " +:+ rest) = w :: split_on " " rest.
Proof.
  induction w as [|c w IH]; intros Hw; [reflexivity|].
  rewrite no_blank_cons in Hw. apply andb_true_iff in Hw. destruct Hw as [Hc Hw].
  apply negb_true_iff in Hc.
  change (String c w +:+ " " +:+ rest) with (String c (w +:+ " " +:+ rest)).
  cbn [split_on]. rewrite Hc, (IH Hw). reflexivity.
Qed.

Lemma split_last_word (w : string) :
  no_blank w = true -> split_on " " w = [w].
Proof.
  induction w as [|c w IH]; intros Hw; [reflexivity|].
  rewrite no_blank_cons in Hw. apply andb_true_iff in Hw. destruct Hw as [Hc Hw].
  apply negb_true_iff in Hc. cbn [split_on]. rewrite Hc, (IH Hw). reflexivity.
Qed.

Lemma truthy_app (w rest : string) : Js.truthy (Some (w +:+ " " +:+ rest)) = true.
Proof. now destruct w. Qed.

Lemma header_token_second (w t rest : string) :
  no_blank w = true -> no_blank t = true ->
  header_token (Some (w +:+ " " +:+ t)) = Some t
  /\ header_token (Some (w +:+ " " +:+ t +:+ " " +:+ rest)) = Some t.
Proof.
  intros Hw Ht. unfold header_token. rewrite !truthy_app. cbn [text_of].
  rewrite !split_word by assumption.
  rewrite (split_last_word t Ht). split; reflexivity.
Qed.

Lemma authenticate_decided {A : Type} (verify : string -> option Principal)
    (next : Principal -> Reply A) (w t rest : string) :
  no_blank w = true -> no_blank t = true -> t <> "" ->
  authenticateToken verify (Some (w +:+ " " +:+ t)) next
  = match verify t with
    | Some user => next user
    | None => Refused 403 None
    end
  /\ authenticateToken verify (Some (w +:+ " " +:+ t +:+ " " +:+ rest)) next
     = match verify t with
       | Some user => next user
       | None => Refused 403 None
       end.
Proof.
  intros Hw Ht Hne. unfold authenticateToken.
  destruct (header_token_second w t rest Hw Ht) as [-> ->].
  destruct t as [|c t]; [congruence|]. split; reflexivity.
Qed.

(** X13. [authenticateToken] takes the second blank-separated field of
    the Authorization header as the token, whatever the first field
    says: no header, an empty one, a single word (a bare token
    included) or two blanks in a row give 401; otherwise the token
    decides, 403 when it does not verify and the next handler with its
    payload when it does; what follows a third blank is ignored. *)
Theorem authenticateToken_reads_second_field {A : Type}
    (verify : string -> option Principal) (next : Principal -> Reply A) :
  authenticateToken verify None next = Refused 401 None
  /\ authenticateToken verify (Some "") next = Refused 401 None
  /\ (forall w, no_blank w = true ->
                authenticateToken verify (Some w) next = Refused 401 None)
  /\ (forall w rest, no_blank w = true ->
                     authenticateToken verify (Some (w +:+ "  " +:+ rest)) next
                     = Refused 401 None)
  /\ (forall w t rest,
        no_blank w = true -> no_blank t = true -> t <> "" ->
        let decided := match verify t with
                       | Some user => next user
                       | None => Refused 403 None
                       end in
        authenticateToken verify (Some (w +:+ " " +:+ t)) next = decided
        /\ authenticateToken verify (Some (w +:+ " " +:+ t +:+ " " +:+ rest)) next
           = decided).
Proof.
  split; [reflexivity|]. split; [reflexivity|]. split; [|split].
  - intros w Hw. unfold authenticateToken, header_token.
    destruct w as [|c w]; [reflexivity|]. cbn [Js.truthy text_of].
    now rewrite (split_last_word _ Hw).
  - intros w rest Hw. unfold authenticateToken, header_token.
    change (w +:+ "  " +:+ rest) with (w +:+ " " +:+ (String " " rest)).
    rewrite truthy_app. cbn [text_of]. rewrite (split_word _ _ Hw). reflexivity.
  - intros w t rest Hw Ht Hne. cbv zeta. now apply authenticate_decided.
Qed.

(** ** Who gets an answer *)

Lemma authenticateToken_sent {A : Type} (verify : string -> option Principal)
    (authorization : option string) (next : Principal -> Reply A) (body : A) :
  authenticateToken verify authorization next = Sent body ->
  exists t user,
    header_token authorization = Some t /\ t <> ""
    /\ verify t = Some user /\ next user = Sent body.
Proof.
  unfold authenticateToken. intros H.
  destruct (header_token authorization) as [[|c t]|]; try discriminate.
  destruct (verify (String c t)) as [user|] eqn:Hv; [|discriminate].
  exists (String c t), user. repeat split; try assumption. discriminate.
Qed.

(** X14. No guarded route sends data unless the header carries a token
    that verifies; the users route moreover needs the payload's role to
    be exactly [Administrator], and tells a verified user of any other
    role, spelled in lower case for one, 403 with "Insufficient
    permissions", while the alert routes serve every verified user. *)
Theorem routes_need_a_verified_token (verify : string -> option Principal)
    (authorization : option string) (now : Z) (st : Store) (us : Users) :
  (forall order_by q body,
     route_alerts verify order_by authorization now q st = Sent body ->
     exists t user, header_token authorization = Some t /\ verify t = Some user)
  /\ (forall body,
        route_geographic verify authorization now st = Sent body ->
        exists t user, header_token authorization = Some t /\ verify t = Some user)
  /\ (forall order_by body,
        route_overview verify order_by authorization now st = Sent body ->
        exists t user, header_token authorization = Some t /\ verify t = Some user)
  /\ (forall order_by body,
        route_users verify order_by authorization us = Sent body ->
        exists t user, header_token authorization = Some t /\ verify t = Some user
                       /\ p_role user = "Administrator")
  /\ (forall order_by t user,
        header_token authorization = Some t -> t <> "" -> verify t = Some user ->
        p_role user <> "Administrator" ->
        route_users verify order_by authorization us
        = Refused 403 (Some "Insufficient permissions")
        /\ route_geographic verify authorization now st
           = Sent (geographic_threats now st)).
Proof.
  split; [|split; [|split; [|split]]].
  - intros order_by q body H. apply authenticateToken_sent in H.
    destruct H as (t & user & Ht & _ & Hv & _). eauto.
  - intros body H. apply authenticateToken_sent in H.
    destruct H as (t & user & Ht & _ & Hv & _). eauto.
  - intros order_by body H. apply authenticateToken_sent in H.
    destruct H as (t & user & Ht & _ & Hv & _). eauto.
  - intros order_by body H. apply authenticateToken_sent in H.
    destruct H as (t & user & Ht & _ & Hv & Hn).
    exists t, user. repeat split; try assumption.
    unfold requireRole in Hn. simpl in Hn.
    destruct (String.eqb_spec (p_role user) "Administrator"); [assumption|discriminate].
  - intros order_by t user Ht Hne Hv Hrole.
    unfold route_users, route_geographic, authenticateToken. rewrite Ht.
    destruct t as [|c t]; [congruence|]. rewrite Hv. split; [|reflexivity].
    unfold requireRole. simpl.
    destruct (String.eqb_spec (p_role user) "Administrator"); [contradiction|reflexivity].
Qed.

(** ** Logging in *)


Lemma login_sent (compare : string -> string -> bool) (sign : Principal -> string)
    (now : Z) (body : LoginBody) (us : Users) (ok : LoginOk) :
  fst (login compare sign now body us) = Sent ok ->
  exists user name password,
    In user (u_rows us) /\ u_is_active user = true
    /\ l_username body = Some name /\ l_password body = Some password
    /\ Collation.text_eqb (u_username user) name = true
    /\ compare password (u_password_hash user) = true
    /\ l_token ok = sign (principal_of user)
    /\ l_user ok = {| lu_id := u_id user;
                      lu_username := u_username user;
                      lu_email := u_email user;
                      lu_role := role_name (u_role user) |}
    /\ snd (login compare sign now body us) = touch_login now (u_id user) us.
Proof.
  unfold login.
  destruct (l_username body) as [name|]; [|discriminate].
  destruct (List.filter _ (u_rows us)) as [|user rest] eqn:Hf; [discriminate|].
  assert (Hin : In user (List.filter
                           (fun u => Collation.text_eqb (u_username u) name
                                     && u_is_active u) (u_rows us)))
    by (rewrite Hf; now left).
  apply filter_In in Hin. destruct Hin as [Hin Hu].
  apply andb_true_iff in Hu. destruct Hu as [Hname Hact].
  destruct (l_password body) as [password|]; [|discriminate].
  destruct (compare password (u_password_hash user)) eqn:Hc; [|discriminate].
  simpl. intros H. injection H as <-.
  exists user, name, password. repeat split; assumption.
Qed.


(** X16. A token handed out by a login, sent back as [Bearer token],
    passes [authenticateToken] on every guarded route as long as it
    verifies to the payload it was signed over; on the users route it
    is then let through exactly when the user's stored role is
    Administrator, and refused as 403 for an analyst or a manager. *)
Theorem login_token_opens_routes (compare : string -> string -> bool)
    (sign : Principal -> string) (verify : string -> option Principal)
    (now : Z) (body : LoginBody) (us us' : Users) (ok : LoginOk) :
  login compare sign now body us = (Sent ok, us') ->
  verify (l_token ok)
  = Some {| p_userId := lu_id (l_user ok);
            p_username := lu_username (l_user ok);
            p_role := lu_role (l_user ok) |} ->
  no_blank (l_token ok) = true -> l_token ok <> "" ->
  exists user,
    In user (u_rows us) /\ lu_id (l_user ok) = u_id user
    /\ (forall order_by now' q st,
          route_alerts verify order_by (bearer (l_token ok)) now' q st
          = reply_of (api_alerts order_by now' q st))
    /\ (forall order_by,
          route_users verify order_by (bearer (l_token ok)) us'
          = match u_role user with
            | Administrator => Sent (map view_of (order_by (u_rows us')))
            | _ => Refused 403 (Some "Insufficient permissions")
            end).
Proof.
  intros Hlogin Hverify Hnb Hne.
  destruct (login_sent compare sign now body us ok)
    as (user & name & password & Hin & _ & _ & _ & _ & _ & Htok & Huser & _);
    [now rewrite Hlogin|].
  exists user. split; [exact Hin|]. split; [now rewrite Huser|].
  assert (Hv : verify (l_token ok) = Some (principal_of user))
    by (rewrite Hverify, Huser; reflexivity).
  assert (Hauth : forall A (next : Principal -> Reply A),
             authenticateToken verify (bearer (l_token ok)) next
             = next (principal_of user)).
  { intros A next.
    destruct (authenticate_decided verify next "Bearer" (l_token ok) "" eq_refl Hnb Hne)
      as [H1 _].
    unfold bearer. rewrite Hv in H1. exact H1. }
  split.
  - intros order_by now' q st. unfold route_alerts. apply Hauth.
  - intros order_by. unfold route_users. rewrite Hauth.
    unfold requireRole. simpl. now destruct (u_role user).
Qed.

Lemma login_token_opens_routes_witness :
  exists ok us' user,
    login demo_compare demo_sign 2000
      {| l_username := Some "Admin"; l_password := Some "password123" |} demo_users
    = (Sent ok, us')
    /\ l_token ok = "jwt.admin"
    /\ map u_last_login (u_rows us') = [Some 2000; None; None]
    /\ lu_id (l_user ok) = u_id user
    /\ forall order_by,
         route_users demo_verify order_by (bearer (l_token ok)) us'
         = match u_role user with
           | Administrator => Sent (map view_of (order_by (u_rows us')))
           | _ => Refused 403 (Some "Insufficient permissions")
           end.
Proof.
  destruct (login demo_compare demo_sign 2000
              {| l_username := Some "Admin"; l_password := Some "password123" |}
              demo_users) as [reply us'] eqn:E.
  assert (E' := E). vm_compute in E'. injection E' as <- <-.
  destruct (login_token_opens_routes demo_compare demo_sign demo_verify 2000
              _ demo_users _ _ E eq_refl eq_refl ltac:(discriminate))
    as (user & Hin & Hid & _ & Husers).
  eexists; eexists; exists user.
  split; [reflexivity|]. split; [reflexivity|]. split; [reflexivity|].
  split; [exact Hid|exact Husers].
Defined.

(** ** The default users *)

(** X17. The default users are written into an empty [users] table
    only: admin, analyst1 and manager1, one of each role, all active,
    each with its own hash; a table that holds any user is left as it
    is, so a second start-up creates nothing and overwrites no
    password. *)
Theorem default_users_once (now now' : Z) (hashes hashes' : nat -> string) (us : Users) :
  let us' := create_default_users now hashes us in
  (u_rows us = [] ->
   map (fun u => (u_username u, u_role u, u_password_hash u, u_is_active u)) (u_rows us')
   = [ ("admin", Administrator, hashes 0%nat, true);
       ("analyst1", SOCAnalyst, hashes 1%nat, true);
       ("manager1", SOCManager, hashes 2%nat, true) ]
   /\ map u_id (u_rows us')
      = [u_next_id us; u_next_id us + 1; u_next_id us + 2])
  /\ (u_rows us <> [] -> us' = us)
  /\ create_default_users now' hashes' us' = us'.
Proof.
  cbv zeta. unfold create_default_users.
  destruct (u_rows us) as [|u rows] eqn:E.
  - split; [|split].
    + intros _. simpl. rewrite E. simpl. split; [reflexivity|].
      repeat (f_equal; try lia).
    + congruence.
    + simpl. rewrite E. reflexivity.
  - simpl. rewrite E. simpl. split; [discriminate|]. split; reflexivity.
Qed.

(** ** The monitoring view *)

Lemma fetch_params_query (f : Filters) :
  let q := query_of (fetch_params f) in
  Req.page q = None /\ Req.limit q = None /\ Req.status q = None
  /\ Req.severity q = (if Js.truthy (Some (f_severity f)) then Some (f_severity f) else None)
  /\ Req.alertType q = (if Js.truthy (Some (f_alertType f)) then Some (f_alertType f) else None)
  /\ Req.sourceIp q = (if Js.truthy (Some (f_sourceIp f)) then Some (f_sourceIp f) else None)
  /\ Req.destinationIp q
     = (if Js.truthy (Some (f_destinationIp f)) then Some (f_destinationIp f) else None)
  /\ Req.timeRange q = (if Js.truthy (Some (f_timeRange f)) then Some (f_timeRange f) else None)
  /\ Req.search q = (if Js.truthy (Some (f_search f)) then Some (f_search f) else None).
Proof.
  destruct f as [[|c1 s1] [|c2 s2] [|c3 s3] [|c4 s4] [|c5 s5] [|c6 s6]];
    repeat split; reflexivity.
Qed.

Lemma served_answer_length (verify : string -> option Principal)
    (order_by : list Alert -> list Alert) (authorization : option string)
    (now : Z) (f : Filters) (st : Store) (body : AlertsBody) :
  route_alerts verify order_by authorization now (query_of (fetch_params f)) st = Sent body ->
  (List.length (alerts body) <= 50)%nat.
Proof.
  unfold route_alerts. intros H.
  apply authenticateToken_sent in H. destruct H as (t & user & _ & _ & _ & H).
  destruct (api_alerts order_by now (query_of (fetch_params f)) st) as [b|] eqn:E;
    [|discriminate].
  injection H as <-.
  apply api_alerts_ok in E. destruct E as (hours & lim & pg & _ & Hl & _ & _ & _ & ->).
  destruct (fetch_params_query f) as (_ & Hlim & _). cbv zeta in Hlim.
  rewrite Hlim in Hl. injection Hl as <-.
  cbn [alerts]. unfold limit_offset. rewrite length_firstn. lia.
Qed.

Lemma feed_step_bound (m : Monitor) (ev : FeedEvent) :
  served ev -> (List.length (m_alerts m) <= 50)%nat ->
  (List.length (m_alerts (feed_step m ev)) <= 50)%nat.
Proof.
  intros Hs Hm. destruct ev as [r|a]; cbn [feed_step].
  - destruct Hs as (verify & order_by & authorization & now & f & st & ->).
    unfold fetched.
    destruct (route_alerts verify order_by authorization now (query_of (fetch_params f)) st)
      as [body|code err] eqn:E; [|assumption].
    cbn [m_alerts]. eapply served_answer_length; eassumption.
  - unfold handleNewAlert. cbn [m_alerts List.length]. rewrite length_firstn. lia.
Qed.

Lemma feed_step_count (m : Monitor) (ev : FeedEvent) :
  m_realTimeCount (feed_step m ev)
  = m_realTimeCount m + match ev with Arrival _ => 1 | Answer _ => 0 end.
Proof.
  destruct ev as [[body|code err]|a]; cbn; lia.
Qed.

(** X18. The list of the monitoring view never holds more than 50
    alerts: an answer to [fetchAlerts] has at most 50, as the view sends
    neither page nor limit, and an arriving alert is put first in front
    of the first 49 it had.  The counter is the number of alerts that
    arrived; answers do not change it. *)
Theorem monitor_keeps_fifty (evs : list FeedEvent) :
  Forall served evs ->
  (List.length (m_alerts (monitor_run evs)) <= 50)%nat
  /\ m_realTimeCount (monitor_run evs) = Z.of_nat (arrivals evs)
  /\ forall a, m_alerts (monitor_run (evs ++ [Arrival a]))
               = a :: firstn 49 (m_alerts (monitor_run evs)).
Proof.
  intros Hs. unfold monitor_run.
  assert (G : forall m,
             (List.length (m_alerts m) <= 50)%nat ->
             (List.length (m_alerts (fold_left feed_step evs m)) <= 50)%nat
             /\ m_realTimeCount (fold_left feed_step evs m)
                = m_realTimeCount m + Z.of_nat (arrivals evs)).
  { induction Hs as [|ev evs Hev Hevs IH]; intros m Hm; cbn [fold_left].
    - split; [assumption|]. unfold arrivals. simpl. lia.
    - destruct (IH (feed_step m ev) (feed_step_bound m ev Hev Hm)) as [H1 H2].
      split; [assumption|]. rewrite H2, feed_step_count.
      unfold arrivals. destruct ev; simpl; lia. }
  destruct (G initial_monitor) as [H1 H2]; [simpl; lia|].
  split; [assumption|]. split; [rewrite H2; reflexivity|].
  intros a. rewrite fold_left_app. reflexivity.
Qed.

Lemma monitor_keeps_fifty_witness :
  Forall served feed_demo
  /\ (List.length (m_alerts (monitor_run feed_demo)) <= 50)%nat
  /\ m_realTimeCount (monitor_run feed_demo) = Z.of_nat (arrivals feed_demo)
  /\ forall a, m_alerts (monitor_run (feed_demo ++ [Arrival a]))
               = a :: firstn 49 (m_alerts (monitor_run feed_demo)).
Proof.
  assert (H : Forall served feed_demo).
  { unfold feed_demo. constructor.
    - cbn [served]. repeat eexists.
    - repeat constructor. }
  split; [exact H|]. apply (monitor_keeps_fifty feed_demo H).
Defined.

(** X19. The view leaves the empty filters out of its request, and the
    handler would have ignored them: the answer is the one to a request
    with all six values.  Every 200 answer is page 1 with limit 50, the
    first 50 of the ordered matching alerts, and the time range is the
    number [parseInt] reads in the filter (0 hours, unused, when the
    filter is empty). *)
Theorem fetchAlerts_request (f : Filters) (order_by : list Alert -> list Alert)
    (now : Z) (st : Store) :
  let q := query_of (fetch_params f) in
  api_alerts order_by now q st
  = api_alerts order_by now
      (Req.mk None None (Some (f_severity f)) None (Some (f_alertType f))
         (Some (f_sourceIp f)) (Some (f_destinationIp f)) (Some (f_timeRange f))
         (Some (f_search f))) st
  /\ forall body,
       api_alerts order_by now q st = Ok200 body ->
       p_page (pagination body) = 1 /\ p_limit (pagination body) = 50
       /\ exists hours,
            alerts body = firstn 50 (order_by (matching now q hours st))
            /\ (f_timeRange f = "" /\ hours = 0
                \/ Js.parseInt (f_timeRange f) = Some hours).
Proof.
  cbv zeta. split.
  - destruct f as [[|c1 s1] [|c2 s2] [|c3 s3] [|c4 s4] [|c5 s5] [|c6 s6]]; reflexivity.
  - intros body E. apply api_alerts_ok in E.
    destruct E as (hours & lim & pg & Hh & Hl & Hp & _ & _ & ->).
    destruct (fetch_params_query f) as (Hpage & Hlim & _ & _ & _ & _ & _ & Ht & _).
    cbv zeta in Hpage, Hlim, Ht.
    rewrite Hlim in Hl. rewrite Hpage in Hp. injection Hl as <-. injection Hp as <-.
    cbn [pagination p_page p_limit alerts]. repeat split.
    exists hours. split; [reflexivity|].
    rewrite Ht in Hh. destruct (f_timeRange f) as [|c s]; cbn in Hh.
    + left. split; [reflexivity|congruence].
    + right. exact Hh.
Qed.

(** ** Markers of the map *)

Lemma icon_size_cases (n : Z) :
  1 <= n ->
  22 <= icon_size n <= 40 /\ (icon_size n = 40 <-> 10 <= n)
  /\ (n < 10 -> icon_size n = 2 * n + 20).
Proof. unfold icon_size. lia. Qed.

Lemma concat_length_sum {A : Type} (gs : list (list A)) :
  fold_right Z.add 0 (map (fun g => Z.of_nat (List.length g)) gs)
  = Z.of_nat (List.length (List.concat gs)).
Proof.
  induction gs as [|g gs IH]; [reflexivity|].
  cbn [map fold_right List.concat]. rewrite IH, length_app. lia.
Qed.

(** X20. Every cluster of the geographic answer counts at least one
    alert, so its marker is between 22 and 40 pixels: [2 * count + 20]
    below ten alerts and 40 from ten on.  The counts of the clusters add
    up to the number of located alerts of the last 24 hours. *)
Theorem marker_sizes (now : Z) (st : Store) :
  (forall c,
     In c (geographic_threats now st) ->
     1 <= alert_count c
     /\ 22 <= icon_size (alert_count c) <= 40
     /\ (icon_size (alert_count c) = 40 <-> 10 <= alert_count c)
     /\ (alert_count c < 10 -> icon_size (alert_count c) = 2 * alert_count c + 20))
  /\ fold_right Z.add 0 (map alert_count (geographic_threats now st))
     = Z.of_nat (List.length (List.filter (located_recent now) (rows st))).
Proof.
  split.
  - intros c Hc. unfold geographic_threats, geo_groups in Hc.
    apply in_map_iff in Hc. destruct Hc as (g & <- & Hg).
    apply group_by_spec in Hg;
      [|apply same_place_refl|apply same_place_sym|apply same_place_trans].
    destruct Hg as (r & _ & Hhd & _).
    assert (H1 : 1 <= alert_count (cluster_of g)).
    { cbn [cluster_of alert_count]. destruct g; [discriminate|]. cbn [List.length]. lia. }
    split; [exact H1|]. destruct (icon_size_cases _ H1) as (Ha & Hb & Hc).
    split; [exact Ha|]. split; [exact Hb|exact Hc].
  - unfold geographic_threats, geo_groups. rewrite map_map.
    rewrite <- (group_by_size same_place (List.filter (located_recent now) (rows st))).
    apply (concat_length_sum (group_by same_place _)).
Qed.

(** ** The exported file *)

Lemma occurrences_app (c : ascii) (s t : string) :
  occurrences c (s +:+ t) = (occurrences c s + occurrences c t)%nat.
Proof.
  induction s as [|d s IH]; [reflexivity|].
  change (String d s +:+ t) with (String d (s +:+ t)).
  cbn [occurrences]. rewrite IH. lia.
Qed.

Lemma split_on_length (c : ascii) (s : string) :
  List.length (split_on c s) = S (occurrences c s).
Proof.
  induction s as [|d s IH]; [reflexivity|].
  cbn [split_on occurrences]. destruct (Ascii.eqb d c).
  - cbn [List.length]. rewrite IH. reflexivity.
  - destruct (split_on c s) as [|h t]; [discriminate|]. cbn [List.length] in *. lia.
Qed.

Lemma split_on_free (c : ascii) (s : string) :
  occurrences c s = O -> split_on c s = [s].
Proof.
  induction s as [|d s IH]; [reflexivity|].
  cbn [split_on occurrences]. destruct (Ascii.eqb d c); [discriminate|].
  intros H. rewrite IH by exact H. reflexivity.
Qed.

Lemma split_on_field (c : ascii) (v rest : string) :
  occurrences c v = O ->
  split_on c (v +:+ String c rest) = v :: split_on c rest.
Proof.
  induction v as [|d v IH].
  - intros _. change ("" +:+ String c rest) with (String c rest).
    cbn [split_on]. rewrite Ascii.eqb_refl. reflexivity.
  - change (String d v +:+ String c rest) with (String d (v +:+ String c rest)).
    cbn [split_on occurrences]. destruct (Ascii.eqb d c); [discriminate|].
    intros H. rewrite IH by exact H. reflexivity.
Qed.

Lemma join_cons (sep x y : string) (l : list string) :
  join sep (x :: y :: l) = x +:+ sep +:+ join sep (y :: l).
Proof. reflexivity. Qed.

Lemma split_on_join (c : ascii) (l : list string) :
  l <> [] -> free_of c l ->
  split_on c (join (String c EmptyString) l) = l.
Proof.
  intros Hne Hf. induction Hf as [|v l Hv Hl IH]; [contradiction|].
  destruct l as [|w l].
  - cbn [join]. apply split_on_free, Hv.
  - rewrite join_cons. change (String c "" +:+ join (String c "") (w :: l))
      with (String c (join (String c "") (w :: l))).
    rewrite split_on_field by exact Hv. f_equal. apply IH. discriminate.
Qed.

Lemma occurrences_join (c : ascii) (sep : string) (l : list string) :
  occurrences c (join sep l)
  = (fold_right (fun v n => (occurrences c v + n)%nat) O l
     + Nat.pred (List.length l) * occurrences c sep)%nat.
Proof.
  induction l as [|v l IH]; [reflexivity|].
  destruct l as [|w l].
  - cbn. lia.
  - rewrite join_cons, !occurrences_app, IH. cbn [fold_right List.length Nat.pred]. lia.
Qed.

Lemma free_of_sum (c : ascii) (l : list string) :
  free_of c l <-> fold_right (fun v n => (occurrences c v + n)%nat) O l = O.
Proof.
  unfold free_of. induction l as [|v l IH]; cbn [fold_right].
  - split; [reflexivity|constructor].
  - split.
    + intros H. inversion H as [|? ? Hv Hl]; subst. apply IH in Hl. lia.
    + intros H. constructor; [lia|]. apply IH. lia.
Qed.

Lemma csv_line_fields (format : Z -> string) (a : Alert) :
  List.length (split_on "," (csv_line format a)) = (8 + commas (csv_values format a))%nat.
Proof.
  rewrite split_on_length. unfold csv_line. rewrite occurrences_join.
  unfold commas. cbn [csv_values List.length Nat.pred fold_right occurrences].
  change (Ascii.eqb "," ",") with true. cbv iota. lia.
Qed.

Lemma csv_line_newlines (format : Z -> string) (a : Alert) :
  free_of newline_char (csv_values format a) ->
  occurrences newline_char (csv_line format a) = O.
Proof.
  intros H. unfold csv_line. rewrite occurrences_join.
  apply free_of_sum in H. rewrite H. reflexivity.
Qed.

Lemma export_round_trip (format : Z -> string) (l : list Alert) :
  l <> [] ->
  Forall (fun a => free_of "," (csv_values format a)
                   /\ free_of newline_char (csv_values format a)) l ->
  exists text,
    exportAlerts format l = Some text
    /\ map (split_on ",") (split_on newline_char text)
       = csv_header :: map (csv_values format) l.
Proof.
  intros Hne Hf. destruct l as [|a0 l0]; [contradiction|].
  eexists. split; [reflexivity|].
  remember (a0 :: l0) as l eqn:El. clear El Hne.
  change newline with (String newline_char EmptyString).
  rewrite split_on_join.
  - cbn [map]. f_equal.
    rewrite map_map. apply map_ext_in. intros a Ha.
    rewrite Forall_forall in Hf. destruct (Hf a Ha) as [Hc _].
    unfold csv_line. apply split_on_join; [discriminate|exact Hc].
  - discriminate.
  - constructor; [reflexivity|].
    apply Forall_forall. intros line Hline. apply in_map_iff in Hline.
    destruct Hline as (a & <- & Ha). rewrite Forall_forall in Hf.
    apply csv_line_newlines. apply (Hf a Ha).
Qed.

(** ** The texts the server stores *)

Lemma uint_free (c : ascii) (d : Decimal.uint) :
  In c separators -> occurrences c (DecimalString.NilEmpty.string_of_uint d) = O.
Proof.
  intros [<-|[<-|[]]]; induction d; simpl; assumption || reflexivity.
Qed.

Lemma string_of_Z_free (c : ascii) (n : Z) :
  In c separators -> occurrences c (string_of_Z n) = O.
Proof.
  intros Hc. unfold string_of_Z, DecimalString.NilZero.string_of_int.
  destruct (Z.to_int n) as [d|d]; unfold DecimalString.NilZero.string_of_uint.
  - destruct d; try apply (uint_free c _ Hc).
    destruct Hc as [<-|[<-|[]]]; reflexivity.
  - assert (H : occurrences c "-" = O) by (destruct Hc as [<-|[<-|[]]]; reflexivity).
    destruct d;
      try (change (String "-" ?s) with ("-" +:+ s); rewrite occurrences_app, H;
           apply (uint_free c _ Hc)).
    destruct Hc as [<-|[<-|[]]]; reflexivity.
Qed.

Lemma pick_Forall {A : Type} (P : A -> Prop) (l : list A) (d : A) (r : Z) :
  Forall P l -> P d -> P (pick l d r).
Proof.
  intros Hl Hd. unfold pick.
  destruct (nth_in_or_default (Z.to_nat (random_below r (Z.of_nat (List.length l)))) l d)
    as [Hin| ->]; [|exact Hd].
  rewrite Forall_forall in Hl. apply Hl, Hin.
Qed.

Lemma dotted_free (c : ascii) (w x y z : string) :
  In c separators ->
  occurrences c w = O -> occurrences c x = O -> occurrences c y = O ->
  occurrences c z = O ->
  occurrences c (dotted w x y z) = O.
Proof.
  intros Hc Hw Hx Hy Hz. unfold dotted. rewrite !occurrences_app, Hw, Hx, Hy, Hz.
  destruct Hc as [<-|[<-|[]]]; reflexivity.
Qed.

Lemma sample_type_free (c : ascii) (r : Z) :
  In c separators -> occurrences c (pick Sample.alertTypes "" r) = O.
Proof.
  intros Hc. apply pick_Forall.
  - destruct Hc as [<-|[<-|[]]]; repeat constructor.
  - reflexivity.
Qed.

Lemma live_type_free (c : ascii) (r : Z) :
  In c separators -> occurrences c (pick Live.alertTypes "" r) = O.
Proof.
  intros Hc. apply pick_Forall.
  - destruct Hc as [<-|[<-|[]]]; repeat constructor.
  - reflexivity.
Qed.

Lemma sample_insert_free (now k : Z) (d : Sample.Draw) :
  free_texts (row_of_insert now k (Sample.insert_of d)).
Proof.
  intros c Hc. unfold Sample.insert_of.
  destruct (Sample.r_source d) as [[[s1 s2] s3] s4]. destruct (Sample.r_dest d) as [d3 d4].
  cbn [row_of_insert alert_type source_ip destination_ip description text_of
       i_alert_type i_source_ip i_destination_ip i_description].
  assert (Hsrc : occurrences c (dotted (random_octet s1) (random_octet s2) (random_octet s3)
                                  (random_octet s4)) = O)
    by (apply dotted_free; try exact Hc; apply string_of_Z_free, Hc).
  assert (H3 : forall s : string, s = "192" \/ s = "168" -> occurrences c s = O)
    by (intros s [->| ->]; destruct Hc as [<-|[<-|[]]]; reflexivity).
  repeat constructor.
  - apply sample_type_free, Hc.
  - exact Hsrc.
  - apply dotted_free; auto; apply string_of_Z_free, Hc.
  - rewrite !occurrences_app, sample_type_free, Hsrc by exact Hc.
    destruct Hc as [<-|[<-|[]]]; reflexivity.
Qed.

Lemma live_insert_free (now k : Z) (d : Live.Draw) :
  free_texts (row_of_insert now k (Live.insert_of d)).
Proof.
  intros c Hc. unfold Live.insert_of.
  destruct (Live.r_source d) as [[[s1 s2] s3] s4].
  cbn [row_of_insert alert_type source_ip destination_ip description text_of
       i_alert_type i_source_ip i_destination_ip i_description].
  assert (Hsrc : occurrences c (dotted (random_octet s1) (random_octet s2) (random_octet s3)
                                  (random_octet s4)) = O)
    by (apply dotted_free; try exact Hc; apply string_of_Z_free, Hc).
  repeat constructor.
  - apply live_type_free, Hc.
  - exact Hsrc.
  - destruct Hc as [<-|[<-|[]]]; reflexivity.
  - rewrite !occurrences_app, live_type_free, Hsrc by exact Hc.
    destruct Hc as [<-|[<-|[]]]; reflexivity.
Qed.

Lemma loop_free (n i0 : nat) (draws : nat -> Sample.Draw) (st : Store) :
  Forall free_texts (rows st) -> Forall free_texts (rows (Sample.loop n i0 draws st)).
Proof.
  revert i0 st. induction n as [|n IH]; intros i0 st H; cbn [Sample.loop]; [exact H|].
  apply IH. cbn [insert_alert fst rows]. apply Forall_app. split; [exact H|].
  constructor; [apply sample_insert_free|constructor].
Qed.

Lemma step_free (sv sv' : Server) :
  step sv sv' -> Forall free_texts (rows (db sv)) -> Forall free_texts (rows (db sv')).
Proof.
  destruct 1 as [draws sv|d sv|sid sv|sid role sv|sid sv]; cbn [db]; intros H; try exact H.
  - unfold Sample.generateSampleSecurityData.
    destruct (_ <? 100); [now apply loop_free|exact H].
  - unfold Live.tick. destruct (Live.fires d); [|exact H].
    cbn [insert_alert db rows]. apply Forall_app. split; [exact H|].
    constructor; [apply live_insert_free|constructor].
Qed.

Lemma reachable_free (sv : Server) :
  reachable sv -> Forall free_texts (rows (db sv)).
Proof.
  induction 1 as [|sv sv' _ IH Hstep]; [constructor|].
  eapply step_free; eauto.
Qed.

Lemma csv_values_free (format : Z -> string) (a : Alert) (c : ascii) :
  In c separators -> free_texts a -> occurrences c (format (created_at a)) = O ->
  free_of c (csv_values format a).
Proof.
  intros Hc Ha Hf. specialize (Ha c Hc).
  inversion Ha as [|? ? H1 Ha1]; subst. inversion Ha1 as [|? ? H2 Ha2]; subst.
  inversion Ha2 as [|? ? H3 Ha3]; subst. inversion Ha3 as [|? ? H4 _]; subst.
  unfold csv_values. repeat constructor; try assumption.
  - apply string_of_Z_free, Hc.
  - destruct Hc as [<-|[<-|[]]]; destruct (severity a); reflexivity.
  - destruct Hc as [<-|[<-|[]]]; destruct (status a); reflexivity.
Qed.

(** X21. The export throws on an empty list and gives a file for any
    other.  The line of an alert has 8 fields plus one for every comma
    in its values: it reads back as 8 columns exactly when no value
    holds a comma, as no value is quoted. *)
Theorem export_fields (format : Z -> string) :
  exportAlerts format [] = None
  /\ (forall a l, exportAlerts format (a :: l) <> None)
  /\ forall a,
       List.length (split_on "," (csv_line format a))
       = (8 + commas (csv_values format a))%nat
       /\ (List.length (split_on "," (csv_line format a)) = 8%nat
           <-> free_of "," (csv_values format a)).
Proof.
  split; [reflexivity|]. split; [discriminate|].
  intros a. split; [apply csv_line_fields|].
  rewrite csv_line_fields. unfold commas. rewrite free_of_sum. lia.
Qed.

(** X22. Whatever alerts of the table of a reachable server are
    exported, with a date format that writes neither comma nor line
    break, the file reads back: cut at the line breaks and then at the
    commas it is the header followed by the values of the alerts. *)
Theorem stored_alerts_export_cleanly (sv : Server) (format : Z -> string)
    (l : list Alert) :
  reachable sv ->
  (forall t c, In c separators -> occurrences c (format t) = O) ->
  l <> [] ->
  incl l (rows (db sv)) ->
  exists text,
    exportAlerts format l = Some text
    /\ map (split_on ",") (split_on newline_char text)
       = csv_header :: map (csv_values format) l.
Proof.
  intros Hr Hf Hne Hl. apply export_round_trip; [exact Hne|].
  apply Forall_forall. intros a Ha.
  pose proof (reachable_free sv Hr) as Hfree. rewrite Forall_forall in Hfree.
  specialize (Hfree a (Hl a Ha)).
  split; apply csv_values_free; try exact Hfree; try apply Hf; simpl; auto.
Qed.

Lemma stored_alerts_export_cleanly_witness :
  exists text,
    exportAlerts demo_format (firstn 3 (rows (db after_startup))) = Some text
    /\ map (split_on ",") (split_on newline_char text)
       = csv_header :: map (csv_values demo_format) (firstn 3 (rows (db after_startup))).
Proof.
  apply (stored_alerts_export_cleanly after_startup demo_format
           (firstn 3 (rows (db after_startup)))).
  - exact after_startup_reachable.
  - intros t c Hc. unfold demo_format. rewrite occurrences_app, string_of_Z_free by exact Hc.
    destruct Hc as [<-|[<-|[]]]; reflexivity.
  - vm_compute. discriminate.
  - intros a Ha. apply firstn_In in Ha. exact Ha.
Defined.

(** ** The timeline of the overview *)

Lemma get_set_same (key : string) (v : JsValue) (o : JsObject) :
  get_prop key (set_prop key v o) = Some v.
Proof.
  induction o as [|[k w] o IH]; cbn [set_prop get_prop].
  - now rewrite String.eqb_refl.
  - destruct (String.eqb k key) eqn:E; cbn [get_prop]; rewrite E; [reflexivity|exact IH].
Qed.

Lemma get_set_other (key k' : string) (v : JsValue) (o : JsObject) :
  key <> k' -> get_prop k' (set_prop key v o) = get_prop k' o.
Proof.
  intros Hne. induction o as [|[k w] o IH]; cbn [set_prop get_prop].
  - apply String.eqb_neq in Hne. now rewrite Hne.
  - destruct (String.eqb k key) eqn:E; cbn [get_prop].
    + apply String.eqb_eq in E. subst k.
      apply String.eqb_neq in Hne. now rewrite Hne.
    + now rewrite IH.
Qed.

Lemma has_date_spec (d : string) (o : JsObject) :
  has_date d o = true <-> get_prop "date" o = Some (Text d).
Proof.
  unfold has_date. destruct (get_prop "date" o) as [[s|n]|]; cbn [strict_eq].
  - rewrite String.eqb_eq. split; congruence.
  - split; discriminate.
  - split; discriminate.
Qed.

Lemma has_date_set (d key : string) (v : JsValue) (o : JsObject) :
  key <> "date" -> has_date d (set_prop key v o) = has_date d o.
Proof.
  intros Hne. unfold has_date. now rewrite get_set_other.
Qed.

Lemma has_date_same (d d' : string) (o : JsObject) :
  has_date d o = true -> has_date d' o = true -> d = d'.
Proof.
  rewrite !has_date_spec. congruence.
Qed.

Lemma new_object (date sev : string) (v : JsValue) :
  sev <> "date" ->
  set_prop sev v [("date", Text date)] = [("date", Text date); (sev, v)].
Proof.
  intros Hne. cbn [set_prop].
  destruct (String.eqb "date" sev) eqn:E; [|reflexivity].
  apply String.eqb_eq in E. congruence.
Qed.

Lemma timeline_step_cell (acc : list JsObject) (it : ChartPoint) (d s : string) :
  c_severity it <> "date" -> s <> "date" ->
  cell d s (timeline_step acc it)
  = if String.eqb (c_date it) d && String.eqb (c_severity it) s
    then Some (Num (c_count it)) else cell d s acc.
Proof.
  intros Hsev Hs. unfold timeline_step, cell.
  induction acc as [|o acc IH].
  - cbn [existsb app find]. rewrite new_object by exact Hsev.
    unfold has_date at 1. cbn [get_prop]. cbn [String.eqb Ascii.eqb Bool.eqb strict_eq].
    destruct (String.eqb (c_date it) d) eqn:Ed.
    + cbn [get_prop andb].
      destruct (String.eqb "date" s) eqn:E1;
        [apply String.eqb_eq in E1; congruence|].
      destruct (String.eqb (c_severity it) s); reflexivity.
    + reflexivity.
  - cbn [existsb update_first]. destruct (has_date (c_date it) o) eqn:Eo.
    + cbn [orb find]. rewrite has_date_set by exact Hsev.
      destruct (has_date d o) eqn:Ed.
      * assert (c_date it = d) by (eapply has_date_same; eassumption). subst d.
        rewrite String.eqb_refl. cbn [andb].
        destruct (String.eqb (c_severity it) s) eqn:Es.
        -- apply String.eqb_eq in Es. subst s. apply get_set_same.
        -- apply String.eqb_neq in Es. now apply get_set_other.
      * destruct (String.eqb (c_date it) d) eqn:E; [|reflexivity].
        apply String.eqb_eq in E. congruence.
    + cbn [orb]. destruct (existsb (has_date (c_date it)) acc) eqn:Ex.
      * cbn [find]. destruct (has_date d o) eqn:Ed; [|exact IH].
        destruct (String.eqb (c_date it) d) eqn:E; [|reflexivity].
        apply String.eqb_eq in E. congruence.
      * cbn [app find]. destruct (has_date d o) eqn:Ed; [|exact IH].
        destruct (String.eqb (c_date it) d) eqn:E; [|reflexivity].
        apply String.eqb_eq in E. congruence.
Qed.

Lemma update_first_dates (p : JsObject -> bool) (key : string) (v : JsValue)
    (acc : list JsObject) :
  key <> "date" ->
  map (get_prop "date") (update_first p (set_prop key v) acc) = map (get_prop "date") acc.
Proof.
  intros Hne. induction acc as [|o acc IH]; [reflexivity|].
  cbn [update_first]. destruct (p o); cbn [map].
  - now rewrite get_set_other.
  - now rewrite IH.
Qed.

Lemma existsb_has_date (d : string) (acc : list JsObject) :
  existsb (has_date d) acc = true <-> In (Some (Text d)) (map (get_prop "date") acc).
Proof.
  rewrite existsb_exists, in_map_iff. split.
  - intros (o & Ho & Hd). exists o. split; [now apply has_date_spec|exact Ho].
  - intros (o & Hd & Ho). exists o. split; [exact Ho|now apply has_date_spec].
Qed.

Lemma timeline_step_dates (acc : list JsObject) (it : ChartPoint) :
  c_severity it <> "date" ->
  map (get_prop "date") (timeline_step acc it)
  = if existsb (has_date (c_date it)) acc
    then map (get_prop "date") acc
    else map (get_prop "date") acc ++ [Some (Text (c_date it))].
Proof.
  intros Hsev. unfold timeline_step.
  destruct (existsb (has_date (c_date it)) acc).
  - now apply update_first_dates.
  - rewrite map_app, new_object by exact Hsev. reflexivity.
Qed.

Lemma timeline_snoc (pre : list ChartPoint) (it : ChartPoint) :
  timeline (pre ++ [it]) = timeline_step (timeline pre) it.
Proof. unfold timeline. now rewrite fold_left_app. Qed.

Lemma latest_snoc (d s : string) (pre : list ChartPoint) (it : ChartPoint) :
  latest d s (pre ++ [it])
  = if String.eqb (c_date it) d && String.eqb (c_severity it) s
    then Some (Num (c_count it)) else latest d s pre.
Proof.
  unfold latest. rewrite rev_app_distr. cbn [rev app find].
  destruct (String.eqb (c_date it) d && String.eqb (c_severity it) s); reflexivity.
Qed.

(** X23. When no severity of the answer is the text [date], the
    timeline has one object for every date of the answer and none
    twice; and the object of a date holds under a severity the count of
    the last row of the answer with that date and severity, or nothing
    when there is no such row. *)
Theorem timeline_pivot (data : list ChartPoint) :
  Forall (fun it => c_severity it <> "date") data ->
  NoDup (map (get_prop "date") (timeline data))
  /\ (forall v, In v (map (get_prop "date") (timeline data))
                <-> exists it, In it data /\ v = Some (Text (c_date it)))
  /\ forall d s, s <> "date" -> cell d s (timeline data) = latest d s data.
Proof.
  induction data as [|it pre IH] using rev_ind; intros Hd.
  - split; [constructor|]. split; [|reflexivity].
    intros v. split; [intros []|intros (it & [] & _)].
  - apply Forall_app in Hd. destruct Hd as [Hpre Hit].
    inversion Hit as [|? ? Hsev _]; subst.
    destruct (IH Hpre) as (Hnd & Hin & Hcell). rewrite timeline_snoc.
    split; [|split].
    + rewrite timeline_step_dates by exact Hsev.
      destruct (existsb (has_date (c_date it)) (timeline pre)) eqn:Ex; [exact Hnd|].
      apply NoDup_app; repeat split; try assumption.
      * constructor; [intros []|constructor].
      * intros v Hv [<-|[]]. apply existsb_has_date in Hv. congruence.
    + intros v. rewrite timeline_step_dates by exact Hsev.
      destruct (existsb (has_date (c_date it)) (timeline pre)) eqn:Ex.
      * rewrite Hin. split.
        -- intros (x & Hx & ->). exists x. split; [apply in_or_app; now left|reflexivity].
        -- intros (x & Hx & ->). apply in_app_or in Hx. destruct Hx as [Hx|[<-|[]]].
           ++ exists x. now split.
           ++ apply Hin. now apply existsb_has_date.
      * rewrite in_app_iff, Hin. split.
        -- intros [(x & Hx & ->)|[<-|[]]].
           ++ exists x. split; [apply in_or_app; now left|reflexivity].
           ++ exists it. split; [apply in_or_app; right; now left|reflexivity].
        -- intros (x & Hx & ->). apply in_app_or in Hx. destruct Hx as [Hx|[<-|[]]].
           ++ left. exists x. now split.
           ++ right. now left.
    + intros d s Hs. rewrite timeline_step_cell, latest_snoc by assumption.
      now rewrite Hcell.
Qed.

Lemma timeline_pivot_witness :
  NoDup (map (get_prop "date") (timeline timeline_demo))
  /\ (forall v, In v (map (get_prop "date") (timeline timeline_demo))
                <-> exists it, In it timeline_demo /\ v = Some (Text (c_date it)))
  /\ forall d s, s <> "date" -> cell d s (timeline timeline_demo) = latest d s timeline_demo.
Proof.
  apply (timeline_pivot timeline_demo).
  repeat constructor; discriminate.
Defined.

